(** * gemini_weather_email.js: the tool-call loop and its two tools

    A shallow embedding of [src/openai/OpenAI-Agent-SDK/gemini_weather_email.js]:
    the weather and e-mail tools, the registry [toolsMap], the helpers
    [extractFunctionCalls] and [buildFunctionResponsePart], and [main] with
    its bounded [while (true)] loop.

    JavaScript strings are sequences of UTF-16 code units, numbers are
    IEEE doubles, [throw] and the awaited collaborators (the model, the
    weather service, the mail relay, the console) are effects.  Strings are
    lists of code units, the doubles the program can build are integers,
    infinities or NaN, and effects live in a small monad that carries the
    trace of input/output events and an outcome that is a value or a thrown
    error. *)

From Stdlib Require Import List ZArith NArith Bool Arith Lia String Ascii.
Import ListNotations.

Set Implicit Arguments.
Set Warnings "-register-all".

(* ================================================================== *)
(** ** Strings *)

Module JsString.

(** One UTF-16 code unit. *)
Definition char16 := N.

Definition jsstring := list char16.

(** An ASCII literal of the source. *)
Definition lit (s : string) : jsstring :=
  map N_of_ascii (list_ascii_of_string s).

Fixpoint eqb (a b : jsstring) : bool :=
  match a, b with
  | [], [] => true
  | x :: a', y :: b' => N.eqb x y && eqb a' b'
  | _, _ => false
  end.

(** WhiteSpace and LineTerminator of ECMAScript: what [\s] matches and
    what [trim] strips. *)
Definition is_space (c : char16) : bool :=
  ((9 <=? c) && (c <=? 13) || (c =? 32) || (c =? 160) || (c =? 5760)
   || (8192 <=? c) && (c <=? 8202) || (c =? 8232) || (c =? 8233)
   || (c =? 8239) || (c =? 8287) || (c =? 12288) || (c =? 65279))%N.

(** [\d]. *)
Definition is_digit (c : char16) : bool := ((48 <=? c) && (c <=? 57))%N.

(** [[-+]]. *)
Definition is_sign (c : char16) : bool := ((c =? 45) || (c =? 43))%N.

(** The degree sign U+00B0; it has no other case. *)
Definition degree : char16 := 176%N.
Definition is_degree (c : char16) : bool := (c =? degree)%N.

(** [C] under the [i] flag: the code units whose upper case is [C]. *)
Definition is_C_nocase (c : char16) : bool := ((c =? 67) || (c =? 99))%N.

Fixpoint dropWhile (p : char16 -> bool) (s : jsstring) : jsstring :=
  match s with
  | c :: s' => if p c then dropWhile p s' else s
  | [] => []
  end.

(** [String.prototype.trim]. *)
Definition trim (s : jsstring) : jsstring :=
  rev (dropWhile is_space (rev (dropWhile is_space s))).

(** [Array.prototype.join] on strings. *)
Fixpoint join (sep : jsstring) (l : list jsstring) : jsstring :=
  match l with
  | [] => []
  | [s] => s
  | s :: l' => s ++ sep ++ join sep l'
  end.

End JsString.
Export JsString.

(* ================================================================== *)
(** ** Numbers and values *)

(** The doubles this program meets: NaN, the infinities, integers, and the
    finite doubles that are not integers ([m / 2^e] with [m] odd), which
    only occur inside arguments the model sends.  [-0] is not told from
    [0]: the program only hands numbers to the JSON serialiser. *)
Inductive jsnum :=
| NaN
| Infinity (negative : bool)
| Int (z : Z)
| Frac (m : Z) (e : positive).

Definition isFinite (n : jsnum) : bool :=
  match n with
  | Int _ | Frac _ _ => true
  | NaN | Infinity _ => false
  end.

(** The double nearest to the integer [z] (ties to even), [Infinity] when
    it is out of range. *)
Definition round_to_double (z : Z) : jsnum :=
  let a := Z.abs z in
  let bits := (Z.log2 a + 1)%Z in
  if (bits <=? 53)%Z then Int z
  else
    let sh := (bits - 53)%Z in
    let q := Z.shiftr a sh in
    let r := Z.land a (Z.ones sh) in
    let half := Z.shiftl 1 (sh - 1) in
    let q' := if (half <? r)%Z || ((half =? r)%Z && Z.odd q) then (q + 1)%Z else q in
    let v := Z.shiftl q' sh in
    if (2 ^ 1024 <=? v)%Z then Infinity (z <? 0)%Z
    else Int (Z.sgn z * v).

Fixpoint digits_value (acc : Z) (s : jsstring) : option Z :=
  match s with
  | [] => Some acc
  | c :: s' =>
      if is_digit c then digits_value (10 * acc + (Z.of_N c - 48))%Z s'
      else None
  end.

(** [Number(s)] for the strings the capture group [([-+]?\d+)] can hold: an
    optional sign and decimal digits.  Any other string is outside what the
    program passes and is mapped to [NaN] here. *)
Definition Number (s : jsstring) : jsnum :=
  let '(neg, ds) :=
    match s with
    | c :: s' => if is_sign c then ((c =? 45)%N, s') else (false, s)
    | [] => (false, s)
    end in
  match ds with
  | [] => NaN
  | _ => match digits_value 0 ds with
         | Some v => round_to_double (if neg then (- v)%Z else v)
         | None => NaN
         end
  end.

(** JSON-like values: what a tool-call argument can be. *)
Inductive jsval :=
| VUndefined
| VNull
| VBool (b : bool)
| VNum (n : jsnum)
| VStr (s : jsstring)
| VArr (items : list jsval)
| VObj (fields : list (jsstring * jsval)).

(** A plain object: its own properties, in insertion order. *)
Definition object := list (jsstring * jsval).

(** Property read [o.k]: [undefined] when the property is absent. *)
Fixpoint get (o : object) (k : jsstring) : jsval :=
  match o with
  | [] => VUndefined
  | (k', v) :: o' => if JsString.eqb k' k then v else get o' k
  end.

(** ToBoolean. *)
Definition truthy (v : jsval) : bool :=
  match v with
  | VUndefined | VNull => false
  | VBool b => b
  | VNum NaN => false
  | VNum (Int z) => negb (z =? 0)%Z
  | VNum _ => true
  | VStr s => match s with [] => false | _ => true end
  | VArr _ | VObj _ => true
  end.

(** [typeof v === 'string']. *)
Definition is_string (v : jsval) : bool :=
  match v with VStr _ => true | _ => false end.

Definition as_string (v : jsval) : jsstring :=
  match v with VStr s => s | _ => [] end.

(* ================================================================== *)
(** ** [encodeURIComponent] *)

(** The characters that are left as they are: letters, digits and
    [- _ . ! ~ * ' ( )]. *)
Definition uri_unreserved (c : char16) : bool :=
  ((65 <=? c) && (c <=? 90) || (97 <=? c) && (c <=? 122) || is_digit c
   || (c =? 45) || (c =? 95) || (c =? 46) || (c =? 33) || (c =? 126)
   || (c =? 42) || (c =? 39) || (c =? 40) || (c =? 41))%N.

Definition hex_digit (n : N) : char16 :=
  (if n <? 10 then 48 + n else 55 + n)%N.

(** [%XX] for one octet. *)
Definition percent (octet : N) : jsstring :=
  [37%N; hex_digit (octet / 16); hex_digit (octet mod 16)].

(** The UTF-8 octets of a code point. *)
Definition utf8 (cp : N) : list N :=
  (if cp <? 128 then [cp]
   else if cp <? 2048 then [192 + cp / 64; 128 + cp mod 64]
   else if cp <? 65536 then
     [224 + cp / 4096; 128 + (cp / 64) mod 64; 128 + cp mod 64]
   else
     [240 + cp / 262144; 128 + (cp / 4096) mod 64;
      128 + (cp / 64) mod 64; 128 + cp mod 64])%N.

Definition is_high_surrogate (c : char16) : bool := ((55296 <=? c) && (c <=? 56319))%N.
Definition is_low_surrogate (c : char16) : bool := ((56320 <=? c) && (c <=? 57343))%N.

(** [None] is the [URIError] thrown for a surrogate without its pair. *)
Fixpoint encodeURIComponent (s : jsstring) : option jsstring :=
  match s with
  | [] => Some []
  | c :: s' =>
      if uri_unreserved c then option_map (cons c) (encodeURIComponent s')
      else if is_low_surrogate c then None
      else if is_high_surrogate c then
        match s' with
        | d :: s'' =>
            if is_low_surrogate d then
              let cp := (65536 + (c - 55296) * 1024 + (d - 56320))%N in
              option_map (app (flat_map percent (utf8 cp))) (encodeURIComponent s'')
            else None
        | [] => None
        end
      else option_map (app (flat_map percent (utf8 c))) (encodeURIComponent s')
  end.

(* ================================================================== *)
(** ** Regular expressions

    The two patterns of the source are sequences of quantified character
    classes.  [match_atoms] is the backtracking matcher of such a sequence
    at one position: every quantifier is greedy and gives characters back
    when the rest fails.  It returns how many code units each atom took. *)

Inductive atom :=
| One (c : char16 -> bool)
| Opt (c : char16 -> bool)
| Plus (c : char16 -> bool)
| Star (c : char16 -> bool).

Section Greedy.
Variable c : char16 -> bool.
Variable rest : jsstring -> option (list nat).

(** [c*] followed by [rest]: take one more when possible, else (or when
    that fails) leave the position to [rest]. *)
Fixpoint greedy (s : jsstring) : option (list nat) :=
  let stop := option_map (cons 0) (rest s) in
  match s with
  | x :: s' =>
      if c x then
        match greedy s' with
        | Some (n :: l) => Some (S n :: l)
        | _ => stop
        end
      else stop
  | [] => stop
  end.
End Greedy.

Fixpoint match_atoms (atoms : list atom) : jsstring -> option (list nat) :=
  match atoms with
  | [] => fun _ => Some []
  | One c :: r => fun s =>
      match s with
      | x :: s' => if c x then option_map (cons 1) (match_atoms r s') else None
      | [] => None
      end
  | Opt c :: r => fun s =>
      let skip := option_map (cons 0) (match_atoms r s) in
      match s with
      | x :: s' =>
          if c x then
            match match_atoms r s' with
            | Some l => Some (1 :: l)
            | None => skip
            end
          else skip
      | [] => skip
      end
  | Plus c :: r => fun s =>
      match s with
      | x :: s' =>
          if c x then
            match greedy c (match_atoms r) s' with
            | Some (n :: l) => Some (S n :: l)
            | _ => None
            end
          else None
      | [] => None
      end
  | Star c :: r => greedy c (match_atoms r)
  end.

(** The leftmost position where the sequence matches. *)
Fixpoint search (atoms : list atom) (s : jsstring) (i : nat)
  : option (nat * list nat) :=
  match match_atoms atoms s with
  | Some l => Some (i, l)
  | None => match s with
            | [] => None
            | _ :: s' => search atoms s' (S i)
            end
  end.

(** A pattern with one capture group that spans its first [captured]
    atoms. *)
Record regex := { atoms : list atom; captured : nat }.

Record match_result := {
  index : nat;
  whole : jsstring;     (* m[0] *)
  group1 : jsstring     (* m[1] *)
}.

Definition total (l : list nat) : nat := fold_right Nat.add 0 l.

(** [s.match(re)] for a pattern without the [g] flag. *)
Definition str_match (re : regex) (s : jsstring) : option match_result :=
  match search (atoms re) s 0 with
  | Some (i, l) =>
      let from := skipn i s in
      Some {| index := i;
              whole := firstn (total l) from;
              group1 := firstn (total (firstn (captured re) l)) from |}
  | None => None
  end.

(** [s.replace(re, '')]: the first match is cut out. *)
Definition replace_empty (re : regex) (s : jsstring) : jsstring :=
  match search (atoms re) s 0 with
  | Some (i, l) => firstn i s ++ skipn (i + total l) s
  | None => s
  end.

Definition temperature_atoms : list atom :=
  [Opt is_sign; Plus is_digit; Star is_space; One is_degree; One is_C_nocase].

(** [/([-+]?\d+)\s*°C/i] *)
Definition re_temp : regex := {| atoms := temperature_atoms; captured := 2 |}.

(** [/([-+]?\d+\s*°C)/i] *)
Definition re_temp_whole : regex := {| atoms := temperature_atoms; captured := 5 |}.

(* ================================================================== *)
(** ** The data of the conversation *)

(** [GetWeatherResultSchema]'s shape: what [getWeatherTool] returns. *)
Record GetWeatherResult := {
  city : jsstring;
  degree_c : jsnum;
  condition : option jsstring
}.

(** What [SendEmailParamsSchema.parse] returns. *)
Record SendEmailParams := {
  toEmail : jsstring;
  subject : jsstring;
  body : jsstring
}.

(** The value a tool call resolves to. *)
Inductive ToolOutput :=
| WeatherOutput (r : GetWeatherResult)
| EmailOutput (messageId : jsstring)       (* { messageId } *)
| OtherOutput (v : jsval).

(** The SDK's [FunctionCall]; [args] may be absent. *)
Record FunctionCall := {
  name : jsstring;
  args : option object
}.

Record FunctionResponse := {
  fr_name : jsstring;
  response : ToolOutput
}.

(** The SDK's [Part]: the program reads [text] and [functionCall] and
    writes [text], [functionCall] and [functionResponse]. *)
Record Part := {
  text : option jsstring;
  functionCall : option FunctionCall;
  functionResponse : option FunctionResponse
}.

Definition textPart (s : jsstring) : Part :=
  {| text := Some s; functionCall := None; functionResponse := None |}.
Definition functionCallPart (c : FunctionCall) : Part :=
  {| text := None; functionCall := Some c; functionResponse := None |}.

(** [buildFunctionResponsePart] *)
Definition buildFunctionResponsePart (name : jsstring) (responseObj : ToolOutput) : Part :=
  {| text := None; functionCall := None;
     functionResponse := Some {| fr_name := name; response := responseObj |} |}.

(** One entry of [history]: a turn. *)
Record Content := {
  role : jsstring;
  parts : list Part
}.

(** A candidate; one whose content has no [parts] reads as one without
    content. *)
Record Candidate := { content : option Content }.

(** What [model.generateContent] resolves to; [candidates] is
    [resp.response.candidates]. *)
Record GenerateContentResult := { candidates : option (list Candidate) }.

(** [resp?.response?.candidates?.[0]?.content?.parts] *)
Definition response_parts (resp : GenerateContentResult) : option (list Part) :=
  match candidates resp with
  | Some (c :: _) =>
      match content c with
      | Some ct => Some (parts ct)
      | None => None
      end
  | _ => None
  end.

Fixpoint filter_map {A B} (f : A -> option B) (l : list A) : list B :=
  match l with
  | [] => []
  | a :: l' => match f a with
               | Some b => b :: filter_map f l'
               | None => filter_map f l'
               end
  end.

(** [extractFunctionCalls]: the [functionCall] of every part that has one,
    in order. *)
Definition extractFunctionCalls (resp : GenerateContentResult) : list FunctionCall :=
  let parts := match response_parts resp with Some ps => ps | None => [] end in
  filter_map functionCall parts.

(** The expression that [main] prints: the non-empty texts of the parts
    joined by newlines, or ['Done.'] when that is undefined or empty. *)
Definition finalText (resp : GenerateContentResult) : jsstring :=
  let joined :=
    match response_parts resp with
    | Some ps =>
        Some (join [10%N]
                (filter (fun t => match t with [] => false | _ => true end)
                   (filter_map text ps)))
    | None => None
    end in
  match joined with
  | Some ((_ :: _) as s) => s
  | _ => lit "Done."
  end.

(* ================================================================== *)
(** ** Errors, events and the effect monad *)

Inductive exn :=
| JsError (message : jsstring)       (* new Error(message) *)
| ZodError (paths : list jsstring)   (* a schema's parse threw: the fields it rejected *)
| URIError                           (* encodeURIComponent on a lone surrogate *)
| TypeError (what : jsstring)
| Rejection (reason : jsstring).     (* a collaborator's promise was rejected *)

(** What an awaited promise settles to.  A request that never settles has
    no value here: the runs described are those in which every awaited
    request settles, and nothing below says that a request does. *)
Inductive settled (A : Type) :=
| Fulfilled (a : A)
| Rejected (e : exn).
Arguments Rejected {A} e.

(** The options of [nodemailer.createTransport]; [port] is the text of
    [SMTP_PORT], of which the source passes [Number(SMTP_PORT)] and whether
    that is 465. *)
Record Transport := {
  smtp_host : jsstring;
  smtp_port : jsstring;
  smtp_user : jsstring;
  smtp_pass : jsstring
}.

Record Mail := {
  mail_from : jsstring;
  mail_to : jsstring;
  mail_subject : jsstring;
  mail_text : jsstring
}.

(** What one run does to the outside, in order.  [ToolInvoke] marks the
    call [toolsMap[name](args)]; the others are the requests to the model,
    the weather service and the mail relay, and the console output. *)
Inductive event :=
| ModelCall (contents : list Content)
| ToolInvoke (name : jsstring) (args : object)
| HttpGet (url : jsstring)
| SmtpSend (t : Transport) (m : Mail)
| ConsoleLog (s : jsstring)
| ConsoleError (e : exn).

Definition trace := list event.

Inductive outcome (A : Type) :=
| Returned (a : A)
| Thrown (e : exn)
| Unfinished.                        (* the loop's unrolling budget ran out *)
Arguments Thrown {A} e.
Arguments Unfinished {A}.

Definition M (A : Type) := trace -> outcome A * trace.

Definition ret {A} (a : A) : M A := fun tr => (Returned a, tr).

Definition bind {A B} (m : M A) (k : A -> M B) : M B := fun tr =>
  match m tr with
  | (Returned a, tr') => k a tr'
  | (Thrown e, tr') => (Thrown e, tr')
  | (Unfinished, tr') => (Unfinished, tr')
  end.

Definition throw {A} (e : exn) : M A := fun tr => (Thrown e, tr).

Definition emit (ev : event) : M unit := fun tr => (Returned tt, tr ++ [ev]).

(** [await] of a request to a collaborator: the request is recorded, and the
    answer is the collaborator's at this point of the run.  The program sets
    no timeout on a request, and a request that never settles would leave
    the run waiting here for ever; [await] always continues because
    [settled] has no such case. *)
Definition await {A} (ev : event) (answer : nat -> settled A) : M A := fun tr =>
  match answer (List.length tr) with
  | Fulfilled a => (Returned a, tr ++ [ev])
  | Rejected e => (Thrown e, tr ++ [ev])
  end.

Declare Scope js_scope.
Delimit Scope js_scope with js.
Notation "x <- c ;; k" := (bind c (fun x => k))
  (at level 61, c at next level, right associativity) : js_scope.
Notation "c ;;; k" := (bind c (fun _ => k))
  (at level 61, right associativity) : js_scope.
Local Open Scope js_scope.

(* ================================================================== *)
(** ** The host and the collaborators *)

(** Built-ins of the language and of the libraries that the source calls
    and does not define. *)
Record Host := {
  toLowerCase : jsstring -> jsstring;
  (** the pattern behind zod's [.email()] *)
  z_email : jsstring -> bool;
  (** [toolsMap[k](args)] for a [k] that [toolsMap] inherits from
      [Object.prototype] *)
  prototype_call : jsstring -> object -> settled ToolOutput
}.

Record ProcessEnv := {
  SMTP_HOST : option jsstring;
  SMTP_PORT : option jsstring;
  SMTP_USER : option jsstring;
  SMTP_PASS : option jsstring;
  FROM_EMAIL : option jsstring
}.

(** The command line as yargs hands it over. *)
Record Argv := {
  argv_city : jsstring;
  argv_to : jsstring;
  argv_subject : option jsstring
}.

(** The collaborators.  An answer may depend on the request and on the
    moment of the run, counted in events so far.  [model] stands for the
    handle that [getGenerativeModel] returns, with its key, model name,
    tool declarations and system instruction. *)
Record World := {
  env : ProcessEnv;
  argv : Argv;
  model : nat -> list Content -> settled GenerateContentResult;
  weather : nat -> jsstring -> settled jsstring;
  relay : nat -> Transport -> Mail -> settled jsstring
}.

(* ================================================================== *)
(** ** Schemas *)

(** [z.number()]: a number that is not NaN (zod's own type for NaN is
    [z.nan()]). *)
Definition z_number (n : jsnum) : bool :=
  match n with NaN => false | _ => true end.

(** [GetWeatherResultSchema.parse] on the object the tool builds: [city] is
    a string there and [condition] a string or undefined, so [degree_c] is
    the one field that can be rejected. *)
Definition GetWeatherResultSchema_parse (r : GetWeatherResult) : M GetWeatherResult :=
  if z_number (degree_c r) then ret r
  else throw (ZodError [lit "degree_c"]).

Definition nonempty_string (v : jsval) : bool :=
  match v with VStr (_ :: _) => true | _ => false end.

(** [SendEmailParamsSchema.parse]: every rejected field is reported. *)
Definition SendEmailParamsSchema_parse (h : Host) (toEmail subject body : jsval)
  : M SendEmailParams :=
  let ok_to := match toEmail with VStr s => z_email h s | _ => false end in
  let ok_subject := nonempty_string subject in
  let ok_body := nonempty_string body in
  if ok_to && ok_subject && ok_body then
    ret {| toEmail := as_string toEmail;
           subject := as_string subject;
           body := as_string body |}
  else
    throw (ZodError ((if ok_to then [] else [lit "toEmail"])
                     ++ (if ok_subject then [] else [lit "subject"])
                     ++ (if ok_body then [] else [lit "body"]))).

(* ================================================================== *)
(** ** The program *)

(** The registry [toolsMap]: its own two keys. *)
Inductive tool := get_weather | send_email.

Definition toolsMap (name : jsstring) : option tool :=
  if JsString.eqb name (lit "get_weather") then Some get_weather
  else if JsString.eqb name (lit "send_email") then Some send_email
  else None.

(** The properties an object literal inherits from [Object.prototype]. *)
Definition Object_prototype_keys : list jsstring :=
  map lit ["constructor"; "__defineGetter__"; "__defineSetter__";
           "hasOwnProperty"; "__lookupGetter__"; "__lookupSetter__";
           "isPrototypeOf"; "propertyIsEnumerable"; "toString"; "valueOf";
           "__proto__"; "toLocaleString"]%string.

(** [name in toolsMap]: own and inherited properties. *)
Definition in_toolsMap (name : jsstring) : bool :=
  match toolsMap name with
  | Some _ => true
  | None => existsb (JsString.eqb name) Object_prototype_keys
  end.

(** [call.args || {}] *)
Definition args_of (call : FunctionCall) : object :=
  match args call with Some a => a | None => [] end.

(** [!v] for an environment variable: unset or empty. *)
Definition missing (v : option jsstring) : bool :=
  match v with Some (_ :: _) => false | _ => true end.

Definition value (v : option jsstring) : jsstring :=
  match v with Some s => s | None => [] end.

Section Program.

Variable host : Host.
Variable w : World.

Definition getWeatherTool (args : object) : M GetWeatherResult :=
  let city := get args (lit "city") in
  if negb (truthy city) || negb (is_string city) then
    throw (JsError (lit "city is required"))
  else
    let city := as_string city in
    match encodeURIComponent (toLowerCase host city) with
    | None => throw URIError
    | Some escaped =>
        let url := lit "https://wttr.in/" ++ escaped ++ lit "?format=%C+%t" in
        data <- await (HttpGet url) (fun t => weather w t url) ;;
        let raw := trim data in
        let tempMatch := str_match re_temp raw in
        let degree_c :=
          match tempMatch with
          | Some m => Number (group1 m)
          | None => NaN
          end in
        let condition := trim (replace_empty re_temp_whole raw) in
        GetWeatherResultSchema_parse
          {| city := city;
             degree_c := if isFinite degree_c then degree_c else NaN;
             condition := match condition with [] => None | _ => Some condition end |}
    end.

Definition sendEmailTool (args : object) : M ToolOutput :=
  let e := env w in
  if missing (SMTP_HOST e) || missing (SMTP_PORT e) || missing (SMTP_USER e)
     || missing (SMTP_PASS e) || missing (FROM_EMAIL e) then
    throw (JsError (lit "Missing SMTP config: SMTP_HOST, SMTP_PORT, SMTP_USER, SMTP_PASS, FROM_EMAIL"))
  else
    params <- SendEmailParamsSchema_parse host
                (get args (lit "toEmail")) (get args (lit "subject"))
                (get args (lit "body")) ;;
    let transporter :=
      {| smtp_host := value (SMTP_HOST e); smtp_port := value (SMTP_PORT e);
         smtp_user := value (SMTP_USER e); smtp_pass := value (SMTP_PASS e) |} in
    let mail :=
      {| mail_from := value (FROM_EMAIL e); mail_to := toEmail params;
         mail_subject := subject params; mail_text := body params |} in
    messageId <- await (SmtpSend transporter mail)
                   (fun t => relay w t transporter mail) ;;
    ret (EmailOutput messageId).

(** [await toolsMap[name](args)], for a [name] that passed the [in]
    test. *)
Definition call_tool (name : jsstring) (args : object) : M ToolOutput :=
  emit (ToolInvoke name args) ;;;
  match toolsMap name with
  | Some get_weather => r <- getWeatherTool args ;; ret (WeatherOutput r)
  | Some send_email => sendEmailTool args
  | None =>
      match prototype_call host name args with
      | Fulfilled v => ret v
      | Rejected e => throw e
      end
  end.

Definition model_turn (call : FunctionCall) : Content :=
  {| role := lit "model"; parts := [functionCallPart call] |}.

Definition tool_turn (name : jsstring) (result : ToolOutput) : Content :=
  {| role := lit "tool"; parts := [buildFunctionResponsePart name result] |}.

(** The body of [for (const call of calls)]; the result is [history]
    after the pushes. *)
Fixpoint dispatch (calls : list FunctionCall) (history : list Content)
  : M (list Content) :=
  match calls with
  | [] => ret history
  | call :: calls' =>
      let name := name call in
      let args := args_of call in
      if negb (in_toolsMap name) then
        throw (JsError (lit "Unknown tool requested by model: " ++ name))
      else
        result <- call_tool name args ;;
        let history := history ++ [model_turn call] in
        let history := history ++ [tool_turn name result] in
        dispatch calls' history
  end.

Definition generateContent (history : list Content) : M GenerateContentResult :=
  await (ModelCall history) (fun t => model w t history).

(** [while (true)], unrolled at most [budget] times.  The state is
    [safetyCounter], [history] and [resp]; the loop ends by [break], with
    the response it broke on, or by a [throw]. *)
Fixpoint tool_loop (budget : nat) (safetyCounter : nat)
         (history : list Content) (resp : GenerateContentResult)
  : M GenerateContentResult :=
  match budget with
  | O => fun tr => (Unfinished, tr)
  | S budget' =>
      let safetyCounter := S safetyCounter in
      if 6 <? safetyCounter then
        throw (JsError (lit "Too many tool-call iterations."))
      else
        match extractFunctionCalls resp with
        | [] => ret resp
        | calls =>
            history <- dispatch calls history ;;
            resp <- generateContent history ;;
            tool_loop budget' safetyCounter history resp
        end
  end.

Definition userPrompt : jsstring :=
  lit "City: " ++ argv_city (argv w) ++ [10%N]
  ++ lit "Recipient: " ++ argv_to (argv w) ++ [10%N]
  ++ match argv_subject (argv w) with
     | Some ((_ :: _) as s) => lit "Preferred subject: " ++ s ++ [10%N]
     | _ => []
     end
  ++ lit "Please email the current weather for the city to the recipient.".

Definition initial_history : list Content :=
  [ {| role := lit "user"; parts := [textPart userPrompt] |} ].

(** The loop never needs more than seven unrollings ([tool_loop_budget]
    below). *)
Definition main : M unit :=
  let history := initial_history in
  resp <- generateContent history ;;
  resp <- tool_loop 7 0 history resp ;;
  emit (ConsoleLog (finalText resp)).

(** [main().catch(...)]: the exit status and everything the run did.  A
    thrown error is printed and the status is 1. *)
Definition run : option nat * trace :=
  match main [] with
  | (Returned _, tr) => (Some 0, tr)
  | (Thrown e, tr) => (Some 1, tr ++ [ConsoleError e])
  | (Unfinished, tr) => (None, tr)
  end.

(** [main] up to its last statement: the response the loop broke on. *)
Definition final_response : M GenerateContentResult :=
  resp <- generateContent initial_history ;;
  tool_loop 7 0 initial_history resp.

End Program.

(** The number of requests to the model in a trace. *)
Definition is_ModelCall (ev : event) : bool :=
  match ev with ModelCall _ => true | _ => false end.

Definition model_calls (tr : trace) : nat := List.length (filter is_ModelCall tr).
Arguments model_calls : simpl never.

(** The error messages of [main]. *)
Definition too_many : exn := JsError (lit "Too many tool-call iterations.").

Definition unknown_tool (name : jsstring) : exn :=
  JsError (lit "Unknown tool requested by model: " ++ name).

Definition missing_smtp_config : exn :=
  JsError (lit "Missing SMTP config: SMTP_HOST, SMTP_PORT, SMTP_USER, SMTP_PASS, FROM_EMAIL").

(** Every answer of the model carries at least one tool-call request. *)
Definition always_requests_tools (w : World) : Prop :=
  forall t h, exists r, model w t h = Fulfilled r /\ extractFunctionCalls r <> [].

(** Every request the model can make passes the registry test and its
    tool returns, whenever it is called. *)
Definition requests_succeed (host : Host) (w : World) : Prop :=
  forall t h r call,
    model w t h = Fulfilled r ->
    In call (extractFunctionCalls r) ->
    in_toolsMap (name call) = true /\
    forall tr, exists out tr',
      call_tool host w (name call) (args_of call) tr = (Returned out, tr').

(** The turns that a processed batch leaves in the history: for each
    request, in order, a model turn with the request and a tool turn with
    its result. *)
Definition recorded (calls : list FunctionCall) (results : list ToolOutput)
  : list Content :=
  flat_map (fun cr => [model_turn (fst cr); tool_turn (name (fst cr)) (snd cr)])
           (combine calls results).

(** The test of [SendEmailParamsSchema] on the arguments of a call. *)
Definition valid_email_params (host : Host) (args : object) : bool :=
  match get args (lit "toEmail") with VStr s => z_email host s | _ => false end
  && nonempty_string (get args (lit "subject"))
  && nonempty_string (get args (lit "body")).

(** The test at the head of [sendEmailTool]. *)
Definition smtp_config_missing (e : ProcessEnv) : bool :=
  missing (SMTP_HOST e) || missing (SMTP_PORT e) || missing (SMTP_USER e)
  || missing (SMTP_PASS e) || missing (FROM_EMAIL e).

(** A computation that always ends and never asks the model. *)
Definition offline {A} (m : M A) : Prop :=
  forall tr, fst (m tr) <> Unfinished /\ model_calls (snd (m tr)) = model_calls tr.

(** No part of the response has a non-empty text. *)
Definition no_text (resp : GenerateContentResult) : Prop :=
  forall ps p, response_parts resp = Some ps -> In p ps ->
               text p = None \/ text p = Some [].

(** When is the [city] argument unusable: absent, empty, or not a string. *)
Definition city_unusable (args : object) : Prop :=
  get args (lit "city") = VUndefined
  \/ get args (lit "city") = VStr []
  \/ is_string (get args (lit "city")) = false.

(* ================================================================== *)
(** ** A concrete host and concrete collaborators, for the examples *)

Module Examples.

(** Lower-casing of the ASCII letters, an e-mail test that looks for [@],
    and inherited methods that are not callable. *)
Definition host : Host :=
  {| toLowerCase := map (fun c => if (65 <=? c) && (c <=? 90) then c + 32 else c)%N;
     z_email := fun s => existsb (N.eqb 64) s;
     prototype_call := fun k _ => Rejected (TypeError k) |}.

Definition no_env : ProcessEnv :=
  {| SMTP_HOST := None; SMTP_PORT := None; SMTP_USER := None;
     SMTP_PASS := None; FROM_EMAIL := None |}.

Definition full_env : ProcessEnv :=
  {| SMTP_HOST := Some (lit "smtp.example.org"); SMTP_PORT := Some (lit "465");
     SMTP_USER := Some (lit "agent"); SMTP_PASS := Some (lit "secret");
     FROM_EMAIL := Some (lit "agent@example.org") |}.

Definition paris_argv : Argv :=
  {| argv_city := lit "Paris"; argv_to := lit "a@b.com"; argv_subject := None |}.

Definition respond (ps : list Part) : GenerateContentResult :=
  {| candidates := Some [ {| content := Some {| role := lit "model"; parts := ps |} |} ] |}.

Definition weather_call (c : jsstring) : FunctionCall :=
  {| name := lit "get_weather"; args := Some [(lit "city", VStr c)] |}.

Definition email_call (to subj txt : jsstring) : FunctionCall :=
  {| name := lit "send_email";
     args := Some [(lit "toEmail", VStr to); (lit "subject", VStr subj);
                   (lit "body", VStr txt)] |}.

Definition unknown_call : FunctionCall :=
  {| name := lit "no_such_tool"; args := None |}.

(** [full_env] without [SMTP_HOST]. *)
Definition env_without_host : ProcessEnv :=
  {| SMTP_HOST := None; SMTP_PORT := Some (lit "465");
     SMTP_USER := Some (lit "agent"); SMTP_PASS := Some (lit "secret");
     FROM_EMAIL := Some (lit "agent@example.org") |}.

Definition good_email : FunctionCall :=
  email_call (lit "a@b.com") (lit "Weather") (lit "Partly cloudy, 15 degrees").

(** The recipient is not an address. *)
Definition bad_email : FunctionCall :=
  email_call (lit "nobody") (lit "Weather") (lit "Partly cloudy, 15 degrees").

Definition partly_cloudy : jsstring := lit "Partly cloudy +15" ++ [degree] ++ lit "C".

(** A world whose model always answers [resp], whose weather service
    always answers [txt] and whose relay accepts every mail. *)
Definition constant_world (e : ProcessEnv) (resp : GenerateContentResult)
           (txt : jsstring) : World :=
  {| env := e; argv := paris_argv;
     model := fun _ _ => Fulfilled resp;
     weather := fun _ _ => Fulfilled txt;
     relay := fun _ _ _ => Fulfilled (lit "<id-1>") |}.

(** The model asks for the weather of Paris while the history has fewer
    than [n] turns, and then answers with the text [ok]. *)
Definition weather_then_text (n : nat) : World :=
  {| env := full_env; argv := paris_argv;
     model := fun _ h =>
       if List.length h <? n
       then Fulfilled (respond [functionCallPart (weather_call (lit "Paris"))])
       else Fulfilled (respond [textPart (lit "ok")]);
     weather := fun _ _ => Fulfilled partly_cloudy;
     relay := fun _ _ _ => Fulfilled (lit "<id-1>") |}.

End Examples.

(* ================================================================== *)
(** ** Definitions for the properties of the tools and of a run *)
(** The text each atom took, for the lengths that [match_atoms] returns. *)
Fixpoint chunks (l : list nat) (s : jsstring) : list jsstring :=
  match l with
  | [] => []
  | n :: l' => firstn n s :: chunks l' (skipn n s)
  end.

(** What an atom may take. *)
Definition accepts (a : atom) (chunk : jsstring) : Prop :=
  match a with
  | One c => exists x, chunk = [x] /\ c x = true
  | Opt c => chunk = [] \/ exists x, chunk = [x] /\ c x = true
  | Plus c => chunk <> [] /\ forallb c chunk = true
  | Star c => forallb c chunk = true
  end.

(** An optional sign and at least one digit. *)
Definition signed_digits (g : jsstring) : Prop :=
  exists sign digits,
    g = sign ++ digits
    /\ (sign = [] \/ exists x, sign = [x] /\ is_sign x = true)
    /\ digits <> []
    /\ forallb is_digit digits = true.

(** [condition || undefined] *)
Definition nonempty (s : jsstring) : option jsstring :=
  match s with [] => None | _ => Some s end.

(** The URL that [getWeatherTool] requests for an escaped city. *)
Definition weather_url (escaped : jsstring) : jsstring :=
  lit "https://wttr.in/" ++ escaped ++ lit "?format=%C+%t".

(** The characters that [encodeURIComponent] can produce: the unreserved
    ones and [%]. *)
Definition url_safe (c : char16) : bool := uri_unreserved c || (c =? 37)%N.

(** A code unit fits in sixteen bits. *)
Definition code_unit (c : char16) : Prop := (c < 65536)%N.

(** The options that [sendEmailTool] passes to [createTransport]. *)
Definition transport_of (e : ProcessEnv) : Transport :=
  {| smtp_host := value (SMTP_HOST e); smtp_port := value (SMTP_PORT e);
     smtp_user := value (SMTP_USER e); smtp_pass := value (SMTP_PASS e) |}.

(** The message that [sendEmailTool] passes to [sendMail]. *)
Definition mail_of (e : ProcessEnv) (args : object) : Mail :=
  {| mail_from := value (FROM_EMAIL e);
     mail_to := as_string (get args (lit "toEmail"));
     mail_subject := as_string (get args (lit "subject"));
     mail_text := as_string (get args (lit "body")) |}.

Definition pair_code_point (c d : char16) : N :=
  (65536 + (c - 55296) * 1024 + (d - 56320))%N.

(** [m] only appends to the trace, what it appends satisfies [P], and what
    it returns satisfies [Q]. *)
Definition emits {A} (P : event -> Prop) (Q : A -> Prop) (m : M A) : Prop :=
  forall tr, exists evs,
    snd (m tr) = tr ++ evs
    /\ Forall P evs
    /\ match fst (m tr) with Returned a => Q a | _ => True end.

Definition anything {A} (_ : A) : Prop := True.

(** The histories that [main] can build: the user turn, then for each
    processed request a model turn and its tool turn. *)
Definition conversation (w : World) (h : list Content) : Prop :=
  exists calls results,
    List.length results = List.length calls
    /\ h = initial_history w ++ recorded calls results.

(** The input and output of the two tools: requests to the weather
    service at its URL, and mail submitted with the configured transport
    and sender, to a well-formed recipient, with a subject and a text. *)
Definition io_event (host : Host) (w : World) (ev : event) : Prop :=
  match ev with
  | HttpGet url => exists escaped, url = weather_url escaped
  | SmtpSend t m =>
      smtp_config_missing (env w) = false
      /\ t = transport_of (env w)
      /\ mail_from m = value (FROM_EMAIL (env w))
      /\ z_email host (mail_to m) = true
      /\ mail_subject m <> []
      /\ mail_text m <> []
  | _ => False
  end.

(** What processing a batch may do. *)
Definition tool_event (host : Host) (w : World) (ev : event) : Prop :=
  match ev with
  | ToolInvoke n _ => in_toolsMap n = true
  | _ => io_event host w ev
  end.

(** What a run may do before it prints its last line. *)
Definition expected (host : Host) (w : World) (ev : event) : Prop :=
  match ev with
  | ModelCall h => conversation w h
  | _ => tool_event host w ev
  end.

Definition is_console (ev : event) : bool :=
  match ev with ConsoleLog _ | ConsoleError _ => true | _ => false end.

(** The histories sent to the model, in order. *)
Definition histories (tr : trace) : list (list Content) :=
  filter_map (fun ev => match ev with ModelCall h => Some h | _ => None end) tr.

(** Each history extends the one before it; the first extends [h]. *)
Fixpoint growing (h : list Content) (hs : list (list Content)) : Prop :=
  match hs with
  | [] => True
  | h' :: hs' => (exists more, h' = h ++ more) /\ growing h' hs'
  end.

(** The tool calls made, in order. *)
Definition invocations (tr : trace) : list (jsstring * object) :=
  filter_map (fun ev => match ev with ToolInvoke n a => Some (n, a) | _ => None end) tr.

(** The non-empty texts of the parts. *)
Definition printable (ps : list Part) : list jsstring :=
  filter (fun t : list char16 => match t with [] => false | _ => true end)
         (filter_map text ps).

(** One parameter of a declared function: its name, type and
    description. *)
Record ParameterDeclaration := {
  p_name : jsstring;
  p_type : jsstring;
  p_description : jsstring
}.

Record FunctionDeclaration := {
  fd_name : jsstring;
  fd_description : jsstring;
  fd_properties : list ParameterDeclaration;
  fd_required : list jsstring
}.

(** The first entry of [functionDeclarations]. *)
Definition get_weather_declaration : FunctionDeclaration :=
  {| fd_name := lit "get_weather";
     fd_description := lit "returns the current weather information for the given city";
     fd_properties :=
       [ {| p_name := lit "city"; p_type := lit "STRING";
            p_description := lit "name of the city" |} ];
     fd_required := [lit "city"] |}.

(** The second entry of [functionDeclarations]. *)
Definition send_email_declaration : FunctionDeclaration :=
  {| fd_name := lit "send_email";
     fd_description := lit "Send an email with provided subject and body";
     fd_properties :=
       [ {| p_name := lit "toEmail"; p_type := lit "STRING";
            p_description := lit "recipient email address" |};
         {| p_name := lit "subject"; p_type := lit "STRING";
            p_description := lit "email subject" |};
         {| p_name := lit "body"; p_type := lit "STRING";
            p_description := lit "email body text" |} ];
     fd_required := [lit "toEmail"; lit "subject"; lit "body"] |}.

(** [functionDeclarations]: what the model is told about the tools. *)
Definition functionDeclarations : list FunctionDeclaration :=
  [get_weather_declaration; send_email_declaration].

(** Further worlds for the examples. *)
Module Scenarios.

(** The weather service cannot be reached. *)
Definition weather_down : World :=
  {| env := Examples.full_env; argv := Examples.paris_argv;
     model := fun _ _ =>
       Fulfilled (Examples.respond
                    [functionCallPart (Examples.weather_call (lit "Paris"))]);
     weather := fun _ _ => Rejected (Rejection (lit "ENOTFOUND wttr.in"));
     relay := fun _ _ _ => Fulfilled (lit "<id-1>") |}.

(** The model asks for the weather, then for the mail, then confirms. *)
Definition weather_mail_done : World :=
  {| env := Examples.full_env; argv := Examples.paris_argv;
     model := fun _ h =>
       match List.length h with
       | 1 => Fulfilled (Examples.respond
                           [functionCallPart (Examples.weather_call (lit "Paris"))])
       | 3 => Fulfilled (Examples.respond [functionCallPart Examples.good_email])
       | _ => Fulfilled (Examples.respond [textPart (lit "Sent.")])
       end;
     weather := fun _ _ => Fulfilled Examples.partly_cloudy;
     relay := fun _ _ _ => Fulfilled (lit "<id-1>") |}.

(** The match of the temperature pattern in ["Partly cloudy +15°C"]. *)
Definition paris_match : match_result :=
  {| index := 14;
     whole := lit "+15" ++ [degree] ++ lit "C";
     group1 := lit "+15" |}.

(** The weather tool is asked for two cities with letters outside ASCII
    and with a space. *)
Definition sao_paulo : object :=
  [(lit "city", VStr (lit "S" ++ [227%N] ++ lit "o Paulo"))].

(** Arguments with one more key than the declaration of [get_weather]
    lists. *)
Definition paris_metric : object :=
  [(lit "units", VStr (lit "metric")); (lit "city", VStr (lit "Paris"))].

Definition paris_world : World :=
  Examples.constant_world Examples.no_env (Examples.respond []) Examples.partly_cloudy.

End Scenarios.

(** The requests [calls] are processed in order from the trace [tr] to the
    trace [tr']: each name passes the registry test, and [results] holds,
    in order, what each tool call returned. *)
Fixpoint processed (host : Host) (w : World) (calls : list FunctionCall)
         (results : list ToolOutput) (tr tr' : trace) : Prop :=
  match calls, results with
  | [], [] => tr' = tr
  | call :: calls', out :: results' =>
      in_toolsMap (name call) = true
      /\ exists tr1,
           call_tool host w (name call) (args_of call) tr = (Returned out, tr1)
           /\ processed host w calls' results' tr1 tr'
  | _, _ => False
  end.

(** [reached host w tr calls results]: the run has come to the trace [tr]
    and is about to ask the model; so far the model has requested exactly
    [calls], batch after batch, every batch has been processed to its end,
    and [results] are what the tools returned. *)
Inductive reached (host : Host) (w : World)
  : trace -> list FunctionCall -> list ToolOutput -> Prop :=
| reached_start : reached host w [] [] []
| reached_round tr calls results r outs tr' :
    reached host w tr calls results ->
    model w (List.length tr) (initial_history w ++ recorded calls results)
      = Fulfilled r ->
    processed host w (extractFunctionCalls r) outs
              (tr ++ [ModelCall (initial_history w ++ recorded calls results)]) tr' ->
    reached host w tr' (calls ++ extractFunctionCalls r) (results ++ outs).

(** Every request to the model in [evs], which comes after [pre], carries
    the record of what was requested and returned before it. *)
Fixpoint model_calls_ok (host : Host) (w : World) (pre evs : trace) : Prop :=
  match evs with
  | [] => True
  | ev :: evs' =>
      match ev with
      | ModelCall h =>
          exists calls results,
            reached host w pre calls results
            /\ h = initial_history w ++ recorded calls results
      | _ => True
      end
      /\ model_calls_ok host w (pre ++ [ev]) evs'
  end.

(** Does [SendEmailParamsSchema] accept the field [k] of [args]? *)
Definition field_accepted (host : Host) (args : object) (k : jsstring) : bool :=
  if JsString.eqb k (lit "toEmail") then
    match get args k with VStr s => z_email host s | _ => false end
  else nonempty_string (get args k).

(** The fields of the arguments that the schema rejects, in schema
    order. *)
Definition rejected_fields (host : Host) (args : object) : list jsstring :=
  filter (fun k => negb (field_accepted host args k))
         [lit "toEmail"; lit "subject"; lit "body"].

(** The number that decimal digits denote. *)
Definition decimal (digits : jsstring) : Z :=
  fold_left (fun acc c => (10 * acc + (Z.of_N c - 48))%Z) digits 0%Z.

(** The number that signed decimal digits denote. *)
Definition signed_value (sign digits : jsstring) : Z :=
  match sign with
  | x :: _ => if (x =? 45)%N then (- decimal digits)%Z else decimal digits
  | [] => decimal digits
  end.


(* ================================================================== *)
(** ** Basic facts *)

Lemma jsstring_eqb_eq (a b : jsstring) : JsString.eqb a b = true <-> a = b.
Proof.
  revert b; induction a as [|x a IH]; intros [|y b]; simpl;
    try (split; [discriminate | congruence]); try tauto.
  rewrite andb_true_iff, N.eqb_eq, IH. split.
  - intros [-> ->]; reflexivity.
  - intros H; inversion H; auto.
Qed.

Lemma jsstring_eqb_refl (a : jsstring) : JsString.eqb a a = true.
Proof. apply jsstring_eqb_eq; reflexivity. Qed.

(** The registry has exactly the two tools. *)
Lemma toolsMap_registered (name : jsstring) :
  toolsMap name <> None <-> name = lit "get_weather" \/ name = lit "send_email".
Proof.
  unfold toolsMap.
  destruct (JsString.eqb name (lit "get_weather")) eqn:Hw;
    [apply jsstring_eqb_eq in Hw; split; [auto | discriminate] |].
  destruct (JsString.eqb name (lit "send_email")) eqn:Hs;
    [apply jsstring_eqb_eq in Hs; split; [auto | discriminate] |].
  split; [congruence |].
  intros [-> | ->]; [rewrite jsstring_eqb_refl in Hw | rewrite jsstring_eqb_refl in Hs];
    discriminate.
Qed.

(** A name that fails [name in toolsMap] is not in the registry; the
    converse fails for the names inherited from [Object.prototype]. *)
Lemma in_toolsMap_false (name : jsstring) :
  in_toolsMap name = false -> toolsMap name = None.
Proof. unfold in_toolsMap. destruct (toolsMap name); [discriminate | reflexivity]. Qed.

Example in_toolsMap_inherited :
  toolsMap (lit "toString") = None /\ in_toolsMap (lit "toString") = true.
Proof. split; reflexivity. Qed.

(* ================================================================== *)
(** ** The weather tool *)

Lemma bind_returned {A B} (m : M A) (k : A -> M B) tr a tr' :
  m tr = (Returned a, tr') -> bind m k tr = k a tr'.
Proof. unfold bind; intros ->; reflexivity. Qed.

Lemma bind_thrown {A B} (m : M A) (k : A -> M B) tr e tr' :
  m tr = (Thrown e, tr') -> bind m k tr = (Thrown e, tr').
Proof. unfold bind; intros ->; reflexivity. Qed.

(** C8.  With city ["Paris"] and the weather service answering
    ["Partly cloudy +15°C"], [getWeatherTool] returns exactly
    [{city: "Paris", degree_c: 15, condition: "Partly cloudy"}]. *)
Theorem getWeatherTool_paris (host : Host) (w : World) (tr : trace) :
  toLowerCase host (lit "Paris") = lit "paris" ->
  weather w (List.length tr) (lit "https://wttr.in/paris?format=%C+%t")
    = Fulfilled Examples.partly_cloudy ->
  fst (getWeatherTool host w [(lit "city", VStr (lit "Paris"))] tr)
    = Returned {| city := lit "Paris";
                  degree_c := Int 15;
                  condition := Some (lit "Partly cloudy") |}.
Proof.
  intros Hlower Hweather.
  unfold getWeatherTool.
  change (get [(lit "city", VStr (lit "Paris"))] (lit "city")) with (VStr (lit "Paris")).
  change (negb (truthy (VStr (lit "Paris"))) || negb (is_string (VStr (lit "Paris"))))
    with false.
  cbv iota. cbn [as_string]. rewrite Hlower.
  change (encodeURIComponent (lit "paris")) with (Some (lit "paris")).
  cbv beta iota zeta.
  change (lit "https://wttr.in/" ++ lit "paris" ++ lit "?format=%C+%t")
    with (lit "https://wttr.in/paris?format=%C+%t").
  unfold bind, await. rewrite Hweather.
  vm_compute. reflexivity.
Qed.

Lemma getWeatherTool_paris_witness :
  fst (getWeatherTool Examples.host
         (Examples.constant_world Examples.no_env (Examples.respond []) Examples.partly_cloudy)
         [(lit "city", VStr (lit "Paris"))] [])
    = Returned {| city := lit "Paris";
                  degree_c := Int 15;
                  condition := Some (lit "Partly cloudy") |}.
Proof.
  apply (@getWeatherTool_paris Examples.host _ []); reflexivity.
Defined.

(** C10.  When the [city] argument is missing, empty or not a string,
    [getWeatherTool] throws [Error('city is required')] and the trace is
    unchanged: no request has been made. *)
Theorem getWeatherTool_city_required (host : Host) (w : World) (args : object) (tr : trace) :
  city_unusable args ->
  getWeatherTool host w args tr = (Thrown (JsError (lit "city is required")), tr).
Proof.
  unfold city_unusable, getWeatherTool.
  intros [H | [H | H]].
  - rewrite H. reflexivity.
  - rewrite H. reflexivity.
  - rewrite H. rewrite orb_true_r. reflexivity.
Qed.

Lemma getWeatherTool_city_required_witness :
  getWeatherTool Examples.host
    (Examples.constant_world Examples.no_env (Examples.respond []) Examples.partly_cloudy)
    [(lit "city", VNum (Int 75001))] []
  = (Thrown (JsError (lit "city is required")), []).
Proof.
  apply getWeatherTool_city_required.
  right; right; reflexivity.
Defined.

Lemma round_to_double_cases (z : Z) :
  (exists b, round_to_double z = Infinity b) \/ (exists v, round_to_double z = Int v).
Proof.
  unfold round_to_double.
  destruct (Z.log2 (Z.abs z) + 1 <=? 53)%Z; [right; eauto |].
  match goal with |- context [if ?c then Infinity _ else _] => destruct c end;
    [left | right]; eauto.
Qed.

Lemma Number_cases (s : jsstring) :
  Number s = NaN \/ (exists b, Number s = Infinity b) \/ (exists v, Number s = Int v).
Proof.
  unfold Number.
  destruct (match s with
            | [] => (false, s)
            | c :: s' => if is_sign c then ((c =? 45)%N, s') else (false, s)
            end) as [neg ds].
  destruct ds as [|d ds]; [now left |].
  destruct (digits_value 0 (d :: ds)) as [v|]; [right | now left].
  apply round_to_double_cases.
Qed.

(** Whatever the city and whatever the service answers, a result that
    [getWeatherTool] returns has an integer [degree_c]. *)
Lemma getWeatherTool_returns_integer (host : Host) (w : World) args tr r tr' :
  getWeatherTool host w args tr = (Returned r, tr') ->
  exists z, degree_c r = Int z.
Proof.
  unfold getWeatherTool.
  destruct (negb (truthy (get args (lit "city"))) || negb (is_string (get args (lit "city"))));
    [discriminate |].
  destruct (encodeURIComponent _) as [escaped|]; [| discriminate].
  unfold bind, await.
  destruct (weather w _ _) as [data | e]; [| discriminate].
  unfold GetWeatherResultSchema_parse. cbn [degree_c].
  set (d := match str_match re_temp (trim data) with
            | Some m => Number (group1 m)
            | None => NaN
            end).
  assert (Hd : d = NaN \/ (exists b, d = Infinity b) \/ (exists v, d = Int v)).
  { subst d. destruct (str_match re_temp (trim data)); [apply Number_cases | now left]. }
  destruct Hd as [-> | [[b ->] | [v ->]]]; cbn; try discriminate.
  intros H; inversion H; subst; cbn; eauto.
Qed.

(** When the answer of the service holds no temperature, the schema
    rejects the result: the tool throws after its request. *)
Lemma getWeatherTool_no_match (host : Host) (w : World) args tr c escaped data :
  get args (lit "city") = VStr c -> c <> [] ->
  encodeURIComponent (toLowerCase host c) = Some escaped ->
  weather w (List.length tr) (lit "https://wttr.in/" ++ escaped ++ lit "?format=%C+%t")
    = Fulfilled data ->
  str_match re_temp (trim data) = None ->
  getWeatherTool host w args tr
  = (Thrown (ZodError [lit "degree_c"]),
     tr ++ [HttpGet (lit "https://wttr.in/" ++ escaped ++ lit "?format=%C+%t")]).
Proof.
  intros Hc Hne Henc Hw Hm.
  unfold getWeatherTool. rewrite Hc.
  destruct c as [|x c]; [congruence |].
  cbn [truthy is_string negb orb as_string]. rewrite Henc.
  unfold bind, await. rewrite Hw, Hm. reflexivity.
Qed.

Example Number_plus_15 : Number (lit "+15") = Int 15.
Proof. reflexivity. Qed.

Example Number_leading_zeros : Number (lit "-007") = Int (-7).
Proof. reflexivity. Qed.

(** [2^53 + 1] is not a double: it is rounded to [2^53]. *)
Example Number_rounds : Number (lit "9007199254740993") = Int 9007199254740992.
Proof. reflexivity. Qed.

(** Four hundred digits overflow. *)
Example Number_overflows : Number (repeat 57%N 400) = Infinity false.
Proof. vm_compute. reflexivity. Qed.

Example match_leftmost :
  str_match re_temp (lit "a 12 +-34 " ++ [degree] ++ lit "c, 5" ++ [degree] ++ lit "C")
  = Some {| index := 6;
            whole := lit "-34 " ++ [degree] ++ lit "c";
            group1 := lit "-34" |}.
Proof. reflexivity. Qed.

Example replace_first :
  replace_empty re_temp_whole (lit "Rain -3" ++ [degree] ++ lit "C now")
  = lit "Rain  now".
Proof. reflexivity. Qed.

Example encodeURIComponent_escapes :
  encodeURIComponent (lit "s" ++ [227%N] ++ lit "o paulo") = Some (lit "s%C3%A3o%20paulo").
Proof. reflexivity. Qed.

Example encodeURIComponent_lone_surrogate :
  encodeURIComponent [55357%N; 65%N] = None.
Proof. reflexivity. Qed.

(** C7.  City ["Paris"], the service answers ["Sunny"]: no temperature is
    found, [degree_c] is NaN, [GetWeatherResultSchema.parse] rejects it and
    the tool call fails after its request. *)
Theorem getWeatherTool_without_temperature :
  getWeatherTool Examples.host
    (Examples.constant_world Examples.no_env (Examples.respond []) (lit "Sunny"))
    [(lit "city", VStr (lit "Paris"))] []
  = (Thrown (ZodError [lit "degree_c"]),
     [HttpGet (lit "https://wttr.in/paris?format=%C+%t")]).
Proof. vm_compute. reflexivity. Qed.

(* ================================================================== *)
(** ** The final message *)

Lemma finalText_no_text (resp : GenerateContentResult) :
  no_text resp -> finalText resp = lit "Done.".
Proof.
  unfold no_text, finalText. intros H.
  destruct (response_parts resp) as [ps|]; [| reflexivity].
  specialize (H ps).
  assert (Hnil : filter (fun t : list char16 => match t with [] => false | _ => true end)
                   (filter_map text ps) = []).
  { induction ps as [|p ps IH]; [reflexivity |].
    cbn [filter_map].
    destruct (H p eq_refl (or_introl eq_refl)) as [Hp | Hp]; rewrite Hp.
    - apply IH. intros q _ Hq. apply H; [reflexivity | now right].
    - cbn [filter]. apply IH. intros q _ Hq. apply H; [reflexivity | now right]. }
  rewrite Hnil. reflexivity.
Qed.

(** C9.  When the response the loop broke on has no part with a non-empty
    text, the run prints exactly ["Done."] and exits with status 0. *)
Theorem run_prints_Done (host : Host) (w : World) (resp : GenerateContentResult) (tr : trace) :
  final_response host w [] = (Returned resp, tr) ->
  no_text resp ->
  run host w = (Some 0, tr ++ [ConsoleLog (lit "Done.")]).
Proof.
  intros Hresp Hno.
  unfold run, main. unfold final_response in Hresp.
  unfold bind in *.
  destruct (generateContent w (initial_history w) []) as [[r0 | e |] tr0];
    try discriminate.
  rewrite Hresp. unfold emit.
  rewrite (finalText_no_text Hno). reflexivity.
Qed.

Lemma run_prints_Done_witness :
  run Examples.host
    (Examples.constant_world Examples.no_env
       (Examples.respond [textPart []]) [])
  = (Some 0,
     [ModelCall (initial_history
                   (Examples.constant_world Examples.no_env
                      (Examples.respond [textPart []]) []))]
     ++ [ConsoleLog (lit "Done.")]).
Proof.
  apply (@run_prints_Done Examples.host _ (Examples.respond [textPart []])).
  - reflexivity.
  - intros ps p Hps Hp. injection Hps as <-.
    destruct Hp as [<- | []]. right; reflexivity.
Defined.

(* ================================================================== *)
(** ** What a tool call can do to the trace *)

Lemma model_calls_app (tr1 tr2 : trace) :
  model_calls (tr1 ++ tr2) = model_calls tr1 + model_calls tr2.
Proof. unfold model_calls. rewrite filter_app, length_app. reflexivity. Qed.

Ltac offline_done :=
  cbn -[model_calls]; rewrite ?model_calls_app;
  split; [discriminate | unfold model_calls; cbn; lia].

Lemma getWeatherTool_offline (host : Host) (w : World) args :
  offline (getWeatherTool host w args).
Proof.
  intros tr. unfold getWeatherTool.
  destruct (negb _ || negb _); [offline_done |].
  destruct (encodeURIComponent _); [| offline_done].
  unfold bind, await.
  destruct (weather w _ _); [| offline_done].
  unfold GetWeatherResultSchema_parse.
  destruct (z_number _); offline_done.
Qed.

Lemma sendEmailTool_offline (host : Host) (w : World) args :
  offline (sendEmailTool host w args).
Proof.
  intros tr. unfold sendEmailTool.
  destruct (_ || _); [offline_done |].
  unfold bind, SendEmailParamsSchema_parse.
  destruct (_ && _); [| offline_done].
  unfold ret, await.
  destruct (relay w _ _ _); offline_done.
Qed.

Lemma call_tool_offline (host : Host) (w : World) name args :
  offline (call_tool host w name args).
Proof.
  intros tr. unfold call_tool, bind, emit.
  destruct (toolsMap name) as [[|]|].
  - destruct (getWeatherTool_offline host w args (tr ++ [ToolInvoke name args])) as [Hf Hc].
    rewrite model_calls_app in Hc.
    destruct (getWeatherTool host w args (tr ++ [ToolInvoke name args])) as [[r | e |] tr'];
      cbn -[model_calls] in *;
      (split; [congruence | rewrite Hc; unfold model_calls; cbn; lia]).
  - destruct (sendEmailTool_offline host w args (tr ++ [ToolInvoke name args])) as [Hf Hc].
    rewrite model_calls_app in Hc.
    split; [assumption | rewrite Hc; unfold model_calls; cbn; lia].
  - destruct (prototype_call host name args); offline_done.
Qed.

Lemma dispatch_offline (host : Host) (w : World) calls :
  forall history, offline (dispatch host w calls history).
Proof.
  induction calls as [|call calls IH]; intros history tr.
  - cbn. split; [discriminate | reflexivity].
  - cbn [dispatch].
    destruct (negb (in_toolsMap (name call))); [cbn; split; [discriminate | reflexivity] |].
    unfold bind.
    destruct (call_tool_offline host w (name call)
                (args_of call) tr) as [Hf Hc].
    destruct (call_tool host w (name call) _ tr) as [[out | e |] tr']; cbn in *.
    + destruct (IH ((history ++ [model_turn call]) ++ [tool_turn (name call) out]) tr')
        as [Hf' Hc'].
      split; [assumption | lia].
    + split; [discriminate | assumption].
    + congruence.
Qed.

Lemma dispatch_app (host : Host) (w : World) calls1 calls2 :
  forall history tr h1 tr1,
    dispatch host w calls1 history tr = (Returned h1, tr1) ->
    dispatch host w (calls1 ++ calls2) history tr = dispatch host w calls2 h1 tr1.
Proof.
  induction calls1 as [|call calls1 IH]; intros history tr h1 tr1 H.
  - cbn in H. injection H as <- <-. reflexivity.
  - cbn [dispatch app] in *.
    destruct (negb (in_toolsMap (name call))); [discriminate |].
    unfold bind in *.
    destruct (call_tool host w (name call) _ tr) as [[out | e |] tr']; try discriminate.
    now apply IH.
Qed.

(* ================================================================== *)
(** ** The loop *)

Lemma tool_loop_S (host : Host) (w : World) b c history resp :
  tool_loop host w (S b) c history resp =
  if 6 <? S c then throw too_many
  else match extractFunctionCalls resp with
       | [] => ret resp
       | _ :: _ =>
           bind (dispatch host w (extractFunctionCalls resp) history)
                (fun h => bind (generateContent w h)
                               (fun r => tool_loop host w b (S c) h r))
       end.
Proof. cbn [tool_loop]. destruct (extractFunctionCalls resp); reflexivity. Qed.

Lemma generateContent_model_calls (w : World) history tr :
  model_calls (snd (generateContent w history tr)) = S (model_calls tr).
Proof.
  unfold generateContent, await.
  destruct (model w _ _); cbn; rewrite model_calls_app; unfold model_calls; cbn; lia.
Qed.

(** From [safetyCounter = c] on, the loop asks the model at most [6 - c]
    more times. *)
Lemma tool_loop_model_calls (host : Host) (w : World) b :
  forall c history resp tr,
    model_calls (snd (tool_loop host w b c history resp tr)) <= model_calls tr + (6 - c).
Proof.
  induction b as [|b IH]; intros c history resp tr; [cbn [tool_loop snd]; lia |].
  rewrite tool_loop_S.
  destruct (Nat.ltb_spec 6 (S c)) as [Hc | Hc]; [cbn [throw snd]; lia |].
  destruct (extractFunctionCalls resp) as [|call calls]; [cbn [ret snd]; lia |].
  unfold bind.
  pose proof (dispatch_offline host w (call :: calls) history tr) as [_ Hd].
  destruct (dispatch host w (call :: calls) history tr) as [[h | e |] tr1];
    cbn [snd] in Hd; [| cbn [snd]; lia | cbn [snd]; lia].
  pose proof (generateContent_model_calls w h tr1) as Hg.
  destruct (generateContent w h tr1) as [[r | e |] tr2];
    cbn [snd] in Hg; [| cbn [snd]; lia | cbn [snd]; lia].
  specialize (IH (S c) h r tr2). lia.
Qed.

(** The budget of seven unrollings is never used up: the loop of [main]
    ends by [break] or by a [throw]. *)
Lemma tool_loop_budget (host : Host) (w : World) b :
  forall c history resp tr,
    0 < b -> 7 <= b + c ->
    fst (tool_loop host w b c history resp tr) <> Unfinished.
Proof.
  induction b as [|b IH]; intros c history resp tr Hpos Hb.
  - lia.
  - rewrite tool_loop_S.
    destruct (Nat.ltb_spec 6 (S c)) as [Hc | Hc]; [cbn; discriminate |].
    destruct (extractFunctionCalls resp) as [|call calls]; [cbn; discriminate |].
    unfold bind.
    pose proof (dispatch_offline host w (call :: calls) history tr) as [Hd _].
    destruct (dispatch host w (call :: calls) history tr) as [[h | e |] tr1]; cbn in Hd;
      [| cbn; discriminate | congruence].
    unfold generateContent, await.
    destruct (model w _ _); [| cbn; discriminate].
    apply IH; lia.
Qed.

Lemma main_ends (host : Host) (w : World) : fst (run host w) <> None.
Proof.
  unfold run, main, bind, generateContent, await.
  destruct (model w _ _) as [r | e]; [| discriminate].
  pose proof (@tool_loop_budget host w 7 0 (initial_history w) r
                ([] ++ [ModelCall (initial_history w)])) as H.
  destruct (tool_loop host w 7 0 (initial_history w) r _) as [[r' | e |] tr'];
    cbn in *; try discriminate.
  exfalso. apply H; [lia | lia | reflexivity].
Qed.

(** One more unrolling changes nothing once the budget covers the bound. *)
Lemma tool_loop_budget_irrelevant (host : Host) (w : World) b :
  forall c history resp tr,
    0 < b -> 7 <= b + c ->
    tool_loop host w (S b) c history resp tr = tool_loop host w b c history resp tr.
Proof.
  induction b as [|b IH]; intros c history resp tr Hpos Hb; [lia |].
  rewrite (tool_loop_S host w (S b)), (tool_loop_S host w b).
  destruct (Nat.ltb_spec 6 (S c)) as [Hc | Hc]; [reflexivity |].
  destruct (extractFunctionCalls resp) as [|call calls]; [reflexivity |].
  unfold bind.
  destruct (dispatch host w (call :: calls) history tr) as [[h | e |] tr1]; try reflexivity.
  destruct (generateContent w h tr1) as [[r | e |] tr2]; try reflexivity.
  apply IH; lia.
Qed.

Lemma main_model_calls (host : Host) (w : World) :
  model_calls (snd (main host w [])) <= 7.
Proof.
  unfold main, bind.
  pose proof (generateContent_model_calls w (initial_history w) []) as Hg.
  destruct (generateContent w (initial_history w) []) as [[r | e |] tr1];
    cbn [snd] in *; [| unfold model_calls in *; cbn in *; lia
                     | unfold model_calls in *; cbn in *; lia].
  pose proof (tool_loop_model_calls host w 7 0 (initial_history w) r tr1) as Hl.
  destruct (tool_loop host w 7 0 (initial_history w) r tr1) as [[r' | e |] tr2];
    cbn [snd] in *.
  - unfold emit. cbn [snd]. rewrite model_calls_app.
    unfold model_calls in *. cbn in *. lia.
  - unfold model_calls in *. cbn in *. lia.
  - unfold model_calls in *. cbn in *. lia.
Qed.

Lemma dispatch_succeeds (host : Host) (w : World) calls :
  (forall call, In call calls ->
     in_toolsMap (name call) = true /\
     forall tr, exists out tr',
       call_tool host w (name call) (args_of call) tr = (Returned out, tr')) ->
  forall history tr, exists h' tr',
    dispatch host w calls history tr = (Returned h', tr').
Proof.
  induction calls as [|call calls IH]; intros H history tr.
  - do 2 eexists. reflexivity.
  - cbn [dispatch].
    destruct (H call (or_introl eq_refl)) as [Hin Hcall].
    rewrite Hin. cbn [negb].
    destruct (Hcall tr) as (out & tr' & Hout).
    rewrite (bind_returned _ _ _ Hout).
    apply IH. intros c Hc. apply H. now right.
Qed.

(** When every answer requests tools and every request succeeds, the loop
    entered with [safetyCounter = c] runs [6 - c] more rounds and throws at
    the next one. *)
Lemma tool_loop_too_many (host : Host) (w : World) :
  always_requests_tools w -> requests_succeed host w ->
  forall k b c history resp tr t0 h0,
    c + k = 6 -> k < b ->
    model w t0 h0 = Fulfilled resp ->
    exists tr',
      tool_loop host w b c history resp tr = (Thrown too_many, tr')
      /\ model_calls tr' = model_calls tr + k
      /\ (k = 0 -> tr' = tr)
      /\ (0 < k -> exists tr0 h, tr' = tr0 ++ [ModelCall h]).
Proof.
  intros Hall Hok.
  induction k as [|k IH]; intros b c history resp tr t0 h0 Hck Hkb Hresp;
    (destruct b as [|b]; [lia |]); rewrite tool_loop_S.
  - replace c with 6 by lia. cbn. eexists.
    split; [reflexivity |]. split; [lia |]. split; [reflexivity | lia].
  - destruct (Nat.ltb_spec 6 (S c)) as [Hc | Hc]; [lia |].
    destruct (Hall t0 h0) as (r0 & Hr0 & Hcalls).
    rewrite Hresp in Hr0. injection Hr0 as <-.
    destruct (extractFunctionCalls resp) as [|call calls] eqn:Hext; [congruence |].
    rewrite <- Hext.
    destruct (@dispatch_succeeds host w (extractFunctionCalls resp)
                (fun call' Hin => Hok t0 h0 resp call' Hresp Hin) history tr)
      as (h' & tr1 & Hd).
    rewrite (bind_returned _ _ _ Hd).
    pose proof (dispatch_offline host w (extractFunctionCalls resp) history tr) as [_ Hm].
    rewrite Hd in Hm. cbn [snd] in Hm.
    destruct (Hall (List.length tr1) h') as (r1 & Hr1 & _).
    unfold bind at 1. unfold generateContent, await. rewrite Hr1.
    destruct (IH b (S c) h' r1 (tr1 ++ [ModelCall h']) (List.length tr1) h')
      as (tr' & Hloop & Hcount & Hzero & Hpos); [lia | lia | assumption |].
    exists tr'. split; [assumption |].
    split; [rewrite Hcount, model_calls_app, Hm; unfold model_calls; cbn; lia |].
    split; [lia |]. intros _.
    destruct k as [|k]; [rewrite (Hzero eq_refl); eauto | apply Hpos; lia].
Qed.

(** C1 (amended).  No run asks the model more than seven times.  When
    every answer of the model requests tools, every requested name passes
    the registry test and every tool call returns, the run ends with the
    error ['Too many tool-call iterations.'], thrown at the seventh round
    of the loop: exactly seven requests have been made to the model, and
    the seventh is the last thing the run did. *)
Theorem tool_loop_bound (host : Host) (w : World) :
  model_calls (snd (main host w [])) <= 7 /\
  (always_requests_tools w -> requests_succeed host w ->
   exists tr tr6 h7,
     main host w [] = (Thrown too_many, tr)
     /\ model_calls tr = 7
     /\ tr = tr6 ++ [ModelCall h7]).
Proof.
  split; [apply main_model_calls |].
  intros Hall Hok.
  destruct (Hall 0 (initial_history w)) as (r & Hr & _).
  unfold main, bind at 1. unfold generateContent at 1, await. cbn [List.length].
  rewrite Hr.
  destruct (@tool_loop_too_many host w Hall Hok 6 7 0 (initial_history w) r
              ([] ++ [ModelCall (initial_history w)]) 0 (initial_history w))
    as (tr' & Hloop & Hcount & _ & Hlast); [lia | lia | assumption |].
  destruct Hlast as (tr6 & h7 & Hlast); [lia |].
  exists tr', tr6, h7. rewrite (bind_thrown _ _ _ Hloop).
  split; [reflexivity |]. split; [rewrite Hcount; reflexivity | assumption].
Qed.

Lemma tool_loop_bound_witness :
  exists tr tr6 h7,
    main Examples.host
      (Examples.constant_world Examples.no_env
         (Examples.respond [functionCallPart (Examples.weather_call (lit "Paris"))])
         Examples.partly_cloudy) []
    = (Thrown too_many, tr)
    /\ model_calls tr = 7
    /\ tr = tr6 ++ [ModelCall h7].
Proof.
  apply (proj2 (tool_loop_bound Examples.host _)).
  - intros t h. eexists. split; [reflexivity | discriminate].
  - intros t h r call Hr Hin. injection Hr as <-.
    destruct Hin as [<- | []].
    split; [reflexivity |].
    intros tr. eexists. eexists. reflexivity.
Defined.

(** C1, as stated, fails: the model always requests a tool that the
    registry does not have, and the run ends at the first round with the
    unknown-tool error, after one request to the model. *)
Lemma unknown_tool_stops_first_round :
  always_requests_tools
    (Examples.constant_world Examples.no_env
       (Examples.respond [functionCallPart Examples.unknown_call]) [])
  /\ fst (main Examples.host
            (Examples.constant_world Examples.no_env
               (Examples.respond [functionCallPart Examples.unknown_call]) []) [])
     = Thrown (unknown_tool (lit "no_such_tool"))
  /\ fst (main Examples.host
            (Examples.constant_world Examples.no_env
               (Examples.respond [functionCallPart Examples.unknown_call]) []) [])
     <> Thrown too_many
  /\ model_calls
       (snd (main Examples.host
               (Examples.constant_world Examples.no_env
                  (Examples.respond [functionCallPart Examples.unknown_call]) []) []))
     = 1.
Proof.
  split; [| split; [| split]].
  - intros t h. eexists. split; [reflexivity | discriminate].
  - vm_compute. reflexivity.
  - vm_compute. discriminate.
  - vm_compute. reflexivity.
Qed.

(* ================================================================== *)
(** ** The end of the loop *)

(** Within the bound, a response without tool-call requests ends the loop
    at once: nothing is appended and nothing more is asked. *)
Lemma tool_loop_break (host : Host) (w : World) b c history resp tr :
  c < 6 -> extractFunctionCalls resp = [] ->
  tool_loop host w (S b) c history resp tr = (Returned resp, tr).
Proof.
  intros Hc Hext. rewrite tool_loop_S, Hext.
  destruct (Nat.ltb_spec 6 (S c)); [lia | reflexivity].
Qed.

(** At the seventh round the loop throws before it looks at the
    response. *)
Lemma tool_loop_seventh_round (host : Host) (w : World) b history resp tr :
  tool_loop host w (S b) 6 history resp tr = (Thrown too_many, tr).
Proof. rewrite tool_loop_S. reflexivity. Qed.

(** A final text after five rounds of tool calls is printed. *)
Example final_text_after_five_rounds :
  fst (run Examples.host (Examples.weather_then_text 11)) = Some 0
  /\ last (snd (run Examples.host (Examples.weather_then_text 11))) (ConsoleLog [])
     = ConsoleLog (lit "ok").
Proof. split; vm_compute; reflexivity. Qed.

(** C2.  The model requests the weather six times and then answers with
    the text ["ok"].  The six rounds succeed, the seventh request to the
    model is made and answered with that text, and the run still ends with
    ['Too many tool-call iterations.'] and status 1: the text is not
    printed. *)
Theorem final_text_after_six_rounds :
  fst (run Examples.host (Examples.weather_then_text 13)) = Some 1
  /\ last (snd (run Examples.host (Examples.weather_then_text 13))) (ConsoleLog [])
     = ConsoleError too_many
  /\ model_calls (snd (main Examples.host (Examples.weather_then_text 13) [])) = 7
  /\ (exists tr6 h7,
        snd (main Examples.host (Examples.weather_then_text 13) []) = tr6 ++ [ModelCall h7]
        /\ model (Examples.weather_then_text 13) (List.length tr6) h7
           = Fulfilled (Examples.respond [textPart (lit "ok")]))
  /\ extractFunctionCalls (Examples.respond [textPart (lit "ok")]) = []
  /\ finalText (Examples.respond [textPart (lit "ok")]) = lit "ok".
Proof.
  split; [vm_compute; reflexivity |].
  split; [vm_compute; reflexivity |].
  split; [vm_compute; reflexivity |].
  split; [| split; reflexivity].
  exists (removelast (snd (main Examples.host (Examples.weather_then_text 13) []))).
  exists (match last (snd (main Examples.host (Examples.weather_then_text 13) []))
                  (ConsoleLog []) with
          | ModelCall h => h
          | _ => []
          end).
  split; vm_compute; reflexivity.
Qed.

(* ================================================================== *)
(** ** What a batch leaves in the history *)

Lemma processed_length (host : Host) (w : World) calls :
  forall results tr tr',
    processed host w calls results tr tr' ->
    List.length results = List.length calls.
Proof.
  induction calls as [|call calls IH]; intros [|out results] tr tr' H;
    cbn in H; try contradiction; [reflexivity |].
  destruct H as (_ & tr1 & _ & H). cbn. f_equal. exact (IH _ _ _ H).
Qed.

Lemma recorded_length calls :
  forall results,
    List.length results = List.length calls ->
    List.length (recorded calls results) = 2 * List.length calls.
Proof.
  induction calls as [|call calls IH]; intros [|out results] H;
    try discriminate; [reflexivity |].
  unfold recorded in *. cbn. rewrite IH; [lia | now injection H].
Qed.

(** What [dispatch] returns: the history with, for each request, a model
    turn and a tool turn holding what the tool call returned. *)
Lemma dispatch_processed (host : Host) (w : World) calls :
  forall history tr history' tr',
    dispatch host w calls history tr = (Returned history', tr') ->
    exists results,
      processed host w calls results tr tr'
      /\ history' = history ++ recorded calls results.
Proof.
  induction calls as [|call calls IH]; intros history tr history' tr' H.
  - cbn in H. injection H as <- <-. exists [].
    split; [reflexivity |]. unfold recorded. cbn. now rewrite app_nil_r.
  - cbn [dispatch] in H.
    destruct (in_toolsMap (name call)) eqn:Hin; cbn [negb] in H; [| discriminate].
    unfold bind in H.
    destruct (call_tool host w (name call) (args_of call) tr) as [[out | e |] tr1] eqn:Hcall;
      try discriminate.
    apply IH in H. destruct H as (results & Hp & Hh).
    exists (out :: results). split.
    + cbn [processed]. split; [assumption |]. exists tr1. split; assumption.
    + rewrite Hh. unfold recorded. cbn. rewrite <- !app_assoc. reflexivity.
Qed.

(** C3 (amended).  A batch of [n] requests that is processed to its end
    leaves the old history untouched and appends [2 n] turns to it: for each
    request, in order, one model turn with that request and then one tool
    turn with its result, which is what the call of its tool returned. *)
Theorem dispatch_appends (host : Host) (w : World) calls :
  forall history tr history' tr',
    dispatch host w calls history tr = (Returned history', tr') ->
    exists results,
      processed host w calls results tr tr'
      /\ List.length results = List.length calls
      /\ history' = history ++ recorded calls results
      /\ List.length history' = List.length history + 2 * List.length calls.
Proof.
  intros history tr history' tr' H.
  destruct (dispatch_processed _ _ _ _ _ H) as (results & Hp & Hh).
  pose proof (processed_length _ _ _ _ _ _ Hp) as Hlen.
  exists results. repeat split; try assumption.
  rewrite Hh, length_app, recorded_length by assumption. reflexivity.
Qed.

Lemma dispatch_appends_witness :
  exists results,
    processed Examples.host
      (Examples.constant_world Examples.no_env (Examples.respond [])
         Examples.partly_cloudy)
      [Examples.weather_call (lit "Paris")] results []
      [ToolInvoke (lit "get_weather") [(lit "city", VStr (lit "Paris"))];
       HttpGet (lit "https://wttr.in/paris?format=%C+%t")]
    /\ List.length results = List.length [Examples.weather_call (lit "Paris")]
    /\ [model_turn (Examples.weather_call (lit "Paris"));
        tool_turn (lit "get_weather")
          (WeatherOutput {| city := lit "Paris"; degree_c := Int 15;
                            condition := Some (lit "Partly cloudy") |})]
       = [] ++ recorded [Examples.weather_call (lit "Paris")] results
    /\ List.length
         [model_turn (Examples.weather_call (lit "Paris"));
          tool_turn (lit "get_weather")
            (WeatherOutput {| city := lit "Paris"; degree_c := Int 15;
                              condition := Some (lit "Partly cloudy") |})]
       = List.length (@nil Content)
         + 2 * List.length [Examples.weather_call (lit "Paris")].
Proof.
  apply (@dispatch_appends Examples.host
           (Examples.constant_world Examples.no_env (Examples.respond [])
              Examples.partly_cloudy)
           [Examples.weather_call (lit "Paris")] [] []
           [model_turn (Examples.weather_call (lit "Paris"));
            tool_turn (lit "get_weather")
              (WeatherOutput {| city := lit "Paris"; degree_c := Int 15;
                                condition := Some (lit "Partly cloudy") |})]
           [ToolInvoke (lit "get_weather") [(lit "city", VStr (lit "Paris"))];
            HttpGet (lit "https://wttr.in/paris?format=%C+%t")]).
  vm_compute. reflexivity.
Defined.

(** C3, as stated, fails: a batch of two requests appends two model turns
    and two tool turns, four turns in all. *)
Lemma two_requests_four_turns :
  match dispatch Examples.host
          (Examples.constant_world Examples.no_env (Examples.respond [])
             Examples.partly_cloudy)
          [Examples.weather_call (lit "Paris"); Examples.weather_call (lit "Oslo")]
          [] [] with
  | (Returned history', _) =>
      List.length history' = 4
      /\ map role history' = [lit "model"; lit "tool"; lit "model"; lit "tool"]
      /\ List.length history' <> 2
  | _ => False
  end.
Proof. vm_compute. repeat split; discriminate. Qed.

(* ================================================================== *)
(** ** Errors inside a batch

    Nothing in [main] catches what a tool or the registry test throws: the
    error leaves the [for] loop, the [while] loop and [main]. *)

(** An error thrown while a batch is processed ends the loop with that
    error, at the trace where it was thrown. *)
Lemma tool_loop_dispatch_thrown (host : Host) (w : World) b c history resp tr e tr' :
  c < 6 -> extractFunctionCalls resp <> [] ->
  dispatch host w (extractFunctionCalls resp) history tr = (Thrown e, tr') ->
  tool_loop host w (S b) c history resp tr = (Thrown e, tr').
Proof.
  intros Hc Hne Hd. rewrite tool_loop_S.
  destruct (Nat.ltb_spec 6 (S c)); [lia |].
  destruct (extractFunctionCalls resp) eqn:Hext; [congruence |].
  apply bind_thrown. assumption.
Qed.

(** The same, for the request of the batch whose processing throws, after
    the requests before it have been processed. *)
Lemma tool_loop_request_thrown (host : Host) (w : World) b c history resp
      calls1 call calls2 tr h1 tr1 e tr' :
  c < 6 ->
  extractFunctionCalls resp = calls1 ++ call :: calls2 ->
  dispatch host w calls1 history tr = (Returned h1, tr1) ->
  dispatch host w (call :: calls2) h1 tr1 = (Thrown e, tr') ->
  tool_loop host w (S b) c history resp tr = (Thrown e, tr').
Proof.
  intros Hc Hext H1 H2.
  apply tool_loop_dispatch_thrown; [assumption | |].
  - rewrite Hext. destruct calls1; discriminate.
  - rewrite Hext, (dispatch_app host w _ (call :: calls2) _ _ H1). assumption.
Qed.

(** A thrown error makes the run print it and exit with status 1. *)
Lemma run_thrown (host : Host) (w : World) e tr :
  main host w [] = (Thrown e, tr) ->
  run host w = (Some 1, tr ++ [ConsoleError e]).
Proof. unfold run. intros ->. reflexivity. Qed.

(** C4 (amended).  In a batch whose requests before [call] are processed
    without error, a [call] whose name fails the test [name in toolsMap]
    ends the loop with the unknown-tool error that names it.  The trace is
    the one left by the earlier requests: their tools have been called, and
    no tool is called for [call] or for a request after it. *)
Theorem unknown_tool_is_fatal (host : Host) (w : World) b c history resp
        calls1 call calls2 tr h1 tr1 :
  c < 6 ->
  extractFunctionCalls resp = calls1 ++ call :: calls2 ->
  in_toolsMap (name call) = false ->
  dispatch host w calls1 history tr = (Returned h1, tr1) ->
  tool_loop host w (S b) c history resp tr
  = (Thrown (unknown_tool (name call)), tr1).
Proof.
  intros Hc Hext Hin H1.
  eapply tool_loop_request_thrown; [exact Hc | exact Hext | exact H1 |].
  cbn [dispatch]. rewrite Hin. reflexivity.
Qed.

Lemma unknown_tool_is_fatal_witness :
  tool_loop Examples.host
    (Examples.constant_world Examples.no_env (Examples.respond []) Examples.partly_cloudy)
    7 0 []
    (Examples.respond [functionCallPart (Examples.weather_call (lit "Paris"));
                       functionCallPart Examples.unknown_call;
                       functionCallPart (Examples.weather_call (lit "Oslo"))])
    []
  = (Thrown (unknown_tool (lit "no_such_tool")),
     [ToolInvoke (lit "get_weather") [(lit "city", VStr (lit "Paris"))];
      HttpGet (lit "https://wttr.in/paris?format=%C+%t")]).
Proof.
  apply (@unknown_tool_is_fatal Examples.host _ 6 0 [] _
           [Examples.weather_call (lit "Paris")] Examples.unknown_call
           [Examples.weather_call (lit "Oslo")] []
           [model_turn (Examples.weather_call (lit "Paris"));
            tool_turn (lit "get_weather")
              (WeatherOutput {| city := lit "Paris"; degree_c := Int 15;
                                condition := Some (lit "Partly cloudy") |})]).
  - lia.
  - reflexivity.
  - reflexivity.
  - vm_compute. reflexivity.
Defined.

(** C4, as stated, fails: the unknown name comes second in the batch, and
    the weather tool has been called, and has made its request, before the
    unknown-tool error is thrown. *)
Lemma weather_called_before_unknown_tool :
  dispatch Examples.host
    (Examples.constant_world Examples.no_env (Examples.respond []) Examples.partly_cloudy)
    [Examples.weather_call (lit "Paris"); Examples.unknown_call] [] []
  = (Thrown (unknown_tool (lit "no_such_tool")),
     [ToolInvoke (lit "get_weather") [(lit "city", VStr (lit "Paris"))];
      HttpGet (lit "https://wttr.in/paris?format=%C+%t")]).
Proof. vm_compute. reflexivity. Qed.

Lemma sendEmailTool_invalid (host : Host) (w : World) args tr :
  smtp_config_missing (env w) = false ->
  valid_email_params host args = false ->
  exists paths,
    paths <> []
    /\ sendEmailTool host w args tr = (Thrown (ZodError paths), tr).
Proof.
  unfold smtp_config_missing, valid_email_params, sendEmailTool.
  intros -> Hv. unfold bind, SendEmailParamsSchema_parse. rewrite Hv.
  eexists. split; [| reflexivity].
  destruct (match get args (lit "toEmail") with VStr s => z_email host s | _ => false end);
    [| discriminate].
  destruct (nonempty_string (get args (lit "subject"))); [| discriminate].
  destruct (nonempty_string (get args (lit "body"))); discriminate.
Qed.

Lemma call_tool_send_email (host : Host) (w : World) name args tr :
  name = lit "send_email" ->
  call_tool host w name args tr
  = sendEmailTool host w args (tr ++ [ToolInvoke name args]).
Proof. intros ->. reflexivity. Qed.

(** The error of a rejected [send_email] call lists exactly the fields
    that the schema rejects. *)
Lemma sendEmailTool_rejects (host : Host) (w : World) args tr :
  smtp_config_missing (env w) = false ->
  valid_email_params host args = false ->
  rejected_fields host args <> []
  /\ sendEmailTool host w args tr = (Thrown (ZodError (rejected_fields host args)), tr).
Proof.
  unfold smtp_config_missing, valid_email_params, sendEmailTool.
  intros -> Hv. unfold bind, SendEmailParamsSchema_parse. rewrite Hv.
  unfold rejected_fields, field_accepted. cbn [filter].
  change (JsString.eqb (lit "toEmail") (lit "toEmail")) with true.
  change (JsString.eqb (lit "subject") (lit "toEmail")) with false.
  change (JsString.eqb (lit "body") (lit "toEmail")) with false.
  cbv iota.
  destruct (match get args (lit "toEmail") with VStr s => z_email host s | _ => false end);
    destruct (nonempty_string (get args (lit "subject")));
    destruct (nonempty_string (get args (lit "body")));
    try discriminate Hv; cbn [negb app]; split; (discriminate || reflexivity).
Qed.

(** C5 (amended).  With the mail configuration present, a [send_email]
    request whose arguments [SendEmailParamsSchema] rejects makes the tool
    throw a [ZodError] that names the rejected fields, exactly those and in
    schema order, before anything is sent to the relay.  The loop does not
    catch it: it ends with that error, with no turn appended for the
    request and no further request to the model. *)
Theorem invalid_email_params_are_fatal (host : Host) (w : World) b c history resp
        calls1 call calls2 tr h1 tr1 :
  c < 6 ->
  extractFunctionCalls resp = calls1 ++ call :: calls2 ->
  name call = lit "send_email" ->
  smtp_config_missing (env w) = false ->
  valid_email_params host (args_of call) = false ->
  dispatch host w calls1 history tr = (Returned h1, tr1) ->
  rejected_fields host (args_of call) <> []
  /\ tool_loop host w (S b) c history resp tr
     = (Thrown (ZodError (rejected_fields host (args_of call))),
        tr1 ++ [ToolInvoke (lit "send_email") (args_of call)]).
Proof.
  intros Hc Hext Hname Hcfg Hv H1.
  destruct (@sendEmailTool_rejects host w (args_of call)
              (tr1 ++ [ToolInvoke (lit "send_email") (args_of call)]) Hcfg Hv)
    as (Hne & Hsend).
  split; [assumption |].
  eapply tool_loop_request_thrown; [exact Hc | exact Hext | exact H1 |].
  cbn [dispatch]. rewrite Hname.
  change (negb (in_toolsMap (lit "send_email"))) with false. cbv iota.
  apply bind_thrown.
  rewrite call_tool_send_email by reflexivity. assumption.
Qed.

Lemma invalid_email_params_are_fatal_witness :
  rejected_fields Examples.host (args_of Examples.bad_email) <> []
  /\ tool_loop Examples.host
       (Examples.constant_world Examples.full_env (Examples.respond []) [])
       7 0 [] (Examples.respond [functionCallPart Examples.bad_email]) []
     = (Thrown (ZodError (rejected_fields Examples.host (args_of Examples.bad_email))),
        [] ++ [ToolInvoke (lit "send_email") (args_of Examples.bad_email)]).
Proof.
  apply (@invalid_email_params_are_fatal Examples.host
           (Examples.constant_world Examples.full_env (Examples.respond []) [])
           6 0 [] (Examples.respond [functionCallPart Examples.bad_email])
           [] Examples.bad_email [] [] [] []).
  - lia.
  - reflexivity.
  - reflexivity.
  - reflexivity.
  - reflexivity.
  - reflexivity.
Defined.

(** Which fields are named, on three calls. *)
Example rejected_fields_examples :
  rejected_fields Examples.host (args_of Examples.bad_email) = [lit "toEmail"]
  /\ rejected_fields Examples.host
       (args_of (Examples.email_call (lit "a@b.com") [] [])) = [lit "subject"; lit "body"]
  /\ rejected_fields Examples.host [] = [lit "toEmail"; lit "subject"; lit "body"].
Proof. repeat split. Qed.

(** C5, as stated, fails: the model asks to send a mail to ["nobody"], the
    schema rejects the recipient, and the run ends there with status 1.
    The model is asked once; no tool turn is recorded and nothing is fed
    back to it. *)
Lemma invalid_recipient_ends_run :
  run Examples.host
    (Examples.constant_world Examples.full_env
       (Examples.respond [functionCallPart Examples.bad_email]) [])
  = (Some 1,
     [ModelCall (initial_history
                   (Examples.constant_world Examples.full_env
                      (Examples.respond [functionCallPart Examples.bad_email]) []));
      ToolInvoke (lit "send_email") (args_of Examples.bad_email);
      ConsoleError (ZodError [lit "toEmail"])]).
Proof. vm_compute. reflexivity. Qed.

(** [sendEmailTool] checks the configuration before anything else. *)
Lemma sendEmailTool_missing_config (host : Host) (w : World) args tr :
  smtp_config_missing (env w) = true ->
  sendEmailTool host w args tr = (Thrown missing_smtp_config, tr).
Proof.
  unfold smtp_config_missing, sendEmailTool. intros ->. reflexivity.
Qed.

(** C6 (amended).  When one of the five mail settings is unset or empty,
    [sendEmailTool] throws ['Missing SMTP config: ...'] with the trace
    unchanged, so before any connection.  The loop does not catch it: a
    [send_email] request then ends the loop with that error, with no turn
    appended for the request and no further request to the model. *)
Theorem missing_smtp_config_is_fatal (host : Host) (w : World) :
  smtp_config_missing (env w) = true ->
  (forall args tr,
      sendEmailTool host w args tr = (Thrown missing_smtp_config, tr))
  /\ (forall b c history resp calls1 call calls2 tr h1 tr1,
         c < 6 ->
         extractFunctionCalls resp = calls1 ++ call :: calls2 ->
         name call = lit "send_email" ->
         dispatch host w calls1 history tr = (Returned h1, tr1) ->
         tool_loop host w (S b) c history resp tr
         = (Thrown missing_smtp_config,
            tr1 ++ [ToolInvoke (lit "send_email") (args_of call)])).
Proof.
  intros Hcfg. split.
  - intros args tr. now apply sendEmailTool_missing_config.
  - intros b c history resp calls1 call calls2 tr h1 tr1 Hc Hext Hname H1.
    eapply tool_loop_request_thrown; [exact Hc | exact Hext | exact H1 |].
    cbn [dispatch]. rewrite Hname.
    change (negb (in_toolsMap (lit "send_email"))) with false. cbv iota.
    apply bind_thrown.
    rewrite call_tool_send_email by reflexivity.
    now apply sendEmailTool_missing_config.
Qed.

Lemma missing_smtp_config_is_fatal_witness :
  sendEmailTool Examples.host
    (Examples.constant_world Examples.env_without_host (Examples.respond []) [])
    (args_of Examples.good_email) []
  = (Thrown missing_smtp_config, []).
Proof.
  apply (proj1 (@missing_smtp_config_is_fatal Examples.host
                  (Examples.constant_world Examples.env_without_host
                     (Examples.respond []) [])
                  eq_refl)).
Defined.

(** C6, as stated, fails: [SMTP_HOST] is not set and the model asks to
    send a well-formed mail.  The tool throws before any connection, as
    claimed, but the error is not turned into a tool result: the run ends
    there with status 1, after one request to the model. *)
Lemma missing_host_ends_run :
  run Examples.host
    (Examples.constant_world Examples.env_without_host
       (Examples.respond [functionCallPart Examples.good_email]) [])
  = (Some 1,
     [ModelCall (initial_history
                   (Examples.constant_world Examples.env_without_host
                      (Examples.respond [functionCallPart Examples.good_email]) []));
      ToolInvoke (lit "send_email") (args_of Examples.good_email);
      ConsoleError missing_smtp_config]).
Proof. vm_compute. reflexivity. Qed.
(* ================================================================== *)
(** ** The temperature pattern *)

Lemma firstn_add {A} (a b : nat) (s : list A) :
  firstn (a + b) s = firstn a s ++ firstn b (skipn a s).
Proof.
  revert s; induction a as [|a IH]; intros s; [reflexivity |].
  destruct s as [|x s]; [cbn; now rewrite firstn_nil |].
  cbn. now rewrite IH.
Qed.

Lemma skipn_add {A} (a b : nat) (s : list A) :
  skipn (a + b) s = skipn b (skipn a s).
Proof.
  revert s; induction a as [|a IH]; intros s; [reflexivity |].
  destruct s as [|x s]; [cbn; now rewrite skipn_nil |].
  cbn. apply IH.
Qed.

Lemma chunks_concat (l : list nat) :
  forall s, List.concat (chunks l s) = firstn (total l) s.
Proof.
  induction l as [|n l IH]; intros s; [reflexivity |].
  cbn [chunks List.concat total fold_right].
  rewrite IH. symmetry. apply firstn_add.
Qed.

Lemma chunks_length (l : list nat) :
  forall s, List.length (chunks l s) = List.length l.
Proof. induction l as [|n l IH]; intros s; cbn; [reflexivity | now rewrite IH]. Qed.

Lemma chunks_firstn (k : nat) :
  forall l s, chunks (firstn k l) s = firstn k (chunks l s).
Proof.
  induction k as [|k IH]; intros l s; [reflexivity |].
  destruct l as [|n l]; [reflexivity |].
  cbn. now rewrite IH.
Qed.

(** What [greedy] returns: the characters it took are in the class, and
    the continuation matched what follows them. *)
Lemma greedy_sound (c : char16 -> bool) (rest : jsstring -> option (list nat)) :
  forall s l',
    greedy c rest s = Some l' ->
    exists n l,
      l' = n :: l /\ n <= List.length s
      /\ forallb c (firstn n s) = true
      /\ rest (skipn n s) = Some l.
Proof.
  assert (Hstop : forall s l', option_map (cons 0) (rest s) = Some l' ->
            exists n l, l' = n :: l /\ n <= List.length s
                        /\ forallb c (firstn n s) = true
                        /\ rest (skipn n s) = Some l).
  { intros s l' H. destruct (rest s) as [l|] eqn:Hr; [| discriminate].
    injection H as <-. exists 0, l. repeat split; [lia | assumption]. }
  induction s as [|x s IH]; intros l' H; cbn [greedy] in H; [now apply Hstop |].
  destruct (c x) eqn:Hx; [| now apply Hstop].
  destruct (greedy c rest s) as [[|n l]|] eqn:Hg; try (now apply Hstop).
  injection H as <-.
  destruct (IH _ eq_refl) as (n' & l0 & Heq & Hlen & Hall & Hrest).
  injection Heq as -> ->.
  exists (S n'), l0. cbn. rewrite Hx, Hall.
  repeat split; [lia | assumption].
Qed.

(** Soundness of the matcher: every atom took text it accepts. *)
Lemma match_atoms_sound (ats : list atom) :
  forall s l,
    match_atoms ats s = Some l ->
    Forall2 accepts ats (chunks l s) /\ total l <= List.length s.
Proof.
  induction ats as [|a ats IH]; intros s l H.
  - cbn in H. injection H as <-. split; [constructor | cbn; lia].
  - destruct a as [c | c | c | c]; cbn [match_atoms] in H.
    + destruct s as [|x s]; [discriminate |].
      destruct (c x) eqn:Hx; [| discriminate].
      destruct (match_atoms ats s) as [l0|] eqn:Hm; [| discriminate].
      injection H as <-. destruct (IH _ _ Hm) as [HF Hlen].
      split; [| unfold total in *; cbn in *; lia].
      cbn. constructor; [exists x; auto | assumption].
    + assert (Hskip : option_map (cons 0) (match_atoms ats s) = Some l ->
                Forall2 accepts (Opt c :: ats) (chunks l s)
                /\ total l <= List.length s).
      { intros H0. destruct (match_atoms ats s) as [l0|] eqn:Hm; [| discriminate].
        injection H0 as <-. destruct (IH _ _ Hm) as [HF Hlen].
        split; [| unfold total in *; cbn in *; lia].
        cbn. constructor; [now left | assumption]. }
      destruct s as [|x s]; [now apply Hskip |].
      destruct (c x) eqn:Hx; [| now apply Hskip].
      destruct (match_atoms ats s) as [l0|] eqn:Hm; [| now apply Hskip].
      injection H as <-. destruct (IH _ _ Hm) as [HF Hlen].
      split; [| unfold total in *; cbn in *; lia].
      cbn. constructor; [right; exists x; auto | assumption].
    + destruct s as [|x s]; [discriminate |].
      destruct (c x) eqn:Hx; [| discriminate].
      destruct (greedy c (match_atoms ats) s) as [[|n l0]|] eqn:Hg; try discriminate.
      injection H as <-.
      destruct (greedy_sound _ _ _ Hg) as (n' & l1 & Heq & Hn & Hall & Hrest).
      injection Heq as -> ->.
      destruct (IH _ _ Hrest) as [HF Hlen].
      rewrite length_skipn in Hlen.
      split; [| unfold total in *; cbn in *; lia].
      cbn. constructor; [| assumption].
      split; [discriminate | cbn; now rewrite Hx, Hall].
    + destruct (greedy_sound _ _ _ H) as (n' & l1 & -> & Hn & Hall & Hrest).
      destruct (IH _ _ Hrest) as [HF Hlen].
      rewrite length_skipn in Hlen.
      split; [| unfold total in *; cbn in *; lia].
      cbn. constructor; assumption.
Qed.

(** [search] returns a position of the string at which the atoms match. *)
Lemma search_sound (ats : list atom) :
  forall s i j l,
    search ats s i = Some (j, l) ->
    i <= j /\ j - i <= List.length s
    /\ match_atoms ats (skipn (j - i) s) = Some l.
Proof.
  induction s as [|x s IH]; intros i j l H; cbn [search] in H.
  - destruct (match_atoms ats []) as [l0|] eqn:Hm; [| discriminate].
    injection H as <- <-. rewrite Nat.sub_diag. cbn. repeat split; [lia | lia | assumption].
  - destruct (match_atoms ats (x :: s)) as [l0|] eqn:Hm.
    + injection H as <- <-. rewrite Nat.sub_diag. cbn. repeat split; [lia | lia | assumption].
    + destruct (IH _ _ _ H) as (Hle & Hlen & Hmatch).
      replace (j - i) with (S (j - S i)) by lia.
      cbn. repeat split; [lia | lia | assumption].
Qed.

Lemma digit_is_not_sign (c : char16) : is_digit c = true -> is_sign c = false.
Proof.
  unfold is_digit, is_sign.
  rewrite andb_true_iff, orb_false_iff, !N.leb_le, !N.eqb_neq. lia.
Qed.

Lemma digits_value_some (ds : jsstring) :
  forallb is_digit ds = true -> forall acc, exists v, digits_value acc ds = Some v.
Proof.
  induction ds as [|d ds IH]; intros H acc; [cbn; eauto |].
  cbn in *. apply andb_true_iff in H as [Hd Hds]. rewrite Hd. now apply IH.
Qed.

Lemma Number_signed_digits (g : jsstring) :
  signed_digits g -> Number g <> NaN.
Proof.
  intros (sign & digits & -> & Hsign & Hne & Hdigits).
  destruct digits as [|d ds]; [congruence |].
  assert (Hd : is_digit d = true) by (cbn in Hdigits; now apply andb_true_iff in Hdigits).
  destruct (digits_value_some _ Hdigits 0) as [v Hv].
  unfold Number.
  destruct Hsign as [-> | (x & -> & Hx)]; cbn [app].
  - rewrite (digit_is_not_sign _ Hd), Hv.
    destruct (round_to_double_cases v) as [[b ->] | [z ->]]; discriminate.
  - rewrite Hx, Hv.
    destruct (round_to_double_cases (if (x =? 45)%N then (- v)%Z else v))
      as [[b ->] | [z ->]]; discriminate.
Qed.

(** X1.  Whenever the temperature pattern matches, what it captures is an
    optional sign followed by at least one digit, so that [Number] of it is
    never NaN, and the whole match is the capture, white space, the degree
    sign and a [C] of either case. *)
Theorem temperature_capture (s : jsstring) (m : match_result) :
  str_match re_temp s = Some m ->
  signed_digits (group1 m)
  /\ Number (group1 m) <> NaN
  /\ exists spaces c,
       whole m = group1 m ++ spaces ++ [degree; c]
       /\ forallb is_space spaces = true
       /\ is_C_nocase c = true.
Proof.
  unfold str_match.
  change (atoms re_temp) with temperature_atoms. change (captured re_temp) with 2.
  destruct (search temperature_atoms s 0) as [[i l]|] eqn:Hs; [| discriminate].
  intros H; injection H as <-. cbn [group1 whole].
  destruct (search_sound _ _ _ Hs) as (_ & _ & Hm).
  rewrite Nat.sub_0_r in Hm.
  destruct (match_atoms_sound _ _ Hm) as [HF _].
  pose proof (Forall2_length HF) as Hlen. rewrite chunks_length in Hlen.
  destruct l as [|n0 [|n1 [|n2 [|n3 [|n4 [|n5 l]]]]]]; try discriminate Hlen.
  rewrite <- (chunks_concat [n0; n1; n2; n3; n4]).
  change (firstn 2 [n0; n1; n2; n3; n4]) with [n0; n1].
  rewrite <- (chunks_concat [n0; n1]).
  cbn [chunks List.concat] in *. rewrite !app_nil_r.
  set (from := skipn i s) in *.
  inversion HF as [|a0 c0 ? r0 H0 HF0]; subst.
  inversion HF0 as [|a1 c1 ? r1 H1 HF1]; subst.
  inversion HF1 as [|a2 c2 ? r2 H2 HF2]; subst.
  inversion HF2 as [|a3 c3 ? r3 H3 HF3]; subst.
  inversion HF3 as [|a4 c4 ? r4 H4 HF4]; subst.
  cbn [accepts] in *.
  destruct H1 as [Hne Hdig].
  destruct H3 as (d & Hd3 & Hd). destruct H4 as (c & Hc4 & Hc).
  apply N.eqb_eq in Hd. subst d. rewrite Hd3, Hc4.
  split; [exists (firstn n0 from), (firstn n1 (skipn n0 from)); auto |].
  split; [apply Number_signed_digits;
          exists (firstn n0 from), (firstn n1 (skipn n0 from)); auto |].
  exists (firstn n2 (skipn n1 (skipn n0 from))), c.
  rewrite <- !app_assoc. auto.
Qed.

Lemma temperature_capture_witness :
  signed_digits (group1 Scenarios.paris_match)
  /\ Number (group1 Scenarios.paris_match) <> NaN
  /\ exists spaces c,
       whole Scenarios.paris_match = group1 Scenarios.paris_match ++ spaces ++ [degree; c]
       /\ forallb is_space spaces = true
       /\ is_C_nocase c = true.
Proof.
  apply (@temperature_capture Examples.partly_cloudy Scenarios.paris_match).
  reflexivity.
Defined.

(** X2.  The two patterns of [getWeatherTool] find the same text: what
    [replace] cuts out of the response is exactly the match whose capture
    gives the temperature, at the same place. *)
Theorem temperature_removed (s : jsstring) (m : match_result) :
  str_match re_temp s = Some m ->
  s = firstn (index m) s ++ whole m ++ skipn (index m + List.length (whole m)) s
  /\ replace_empty re_temp_whole s
     = firstn (index m) s ++ skipn (index m + List.length (whole m)) s.
Proof.
  unfold str_match, replace_empty.
  change (atoms re_temp) with temperature_atoms.
  change (atoms re_temp_whole) with temperature_atoms.
  destruct (search temperature_atoms s 0) as [[i l]|] eqn:Hs; [| discriminate].
  intros H; injection H as <-. cbn [index whole].
  destruct (search_sound _ _ _ Hs) as (_ & _ & Hm).
  rewrite Nat.sub_0_r in Hm.
  destruct (match_atoms_sound _ _ Hm) as [_ Hlen].
  rewrite length_firstn, Nat.min_l by assumption.
  split; [| reflexivity].
  rewrite skipn_add, firstn_skipn, firstn_skipn. reflexivity.
Qed.

Lemma temperature_removed_witness :
  Examples.partly_cloudy
  = firstn (index Scenarios.paris_match) Examples.partly_cloudy
    ++ whole Scenarios.paris_match
    ++ skipn (index Scenarios.paris_match + List.length (whole Scenarios.paris_match))
         Examples.partly_cloudy
  /\ replace_empty re_temp_whole Examples.partly_cloudy
     = firstn (index Scenarios.paris_match) Examples.partly_cloudy
       ++ skipn (index Scenarios.paris_match + List.length (whole Scenarios.paris_match))
            Examples.partly_cloudy.
Proof.
  apply (@temperature_removed Examples.partly_cloudy Scenarios.paris_match).
  reflexivity.
Defined.

(** X3.  Whenever [getWeatherTool] returns, it has made exactly one
    request, for the lower-cased and escaped city; the answer held a
    temperature pattern; [degree_c] is the integer captured there; the city
    is the argument as given; and the condition is the trimmed rest of the
    answer, absent when empty. *)
Theorem getWeatherTool_returned (host : Host) (w : World) args tr r tr' :
  getWeatherTool host w args tr = (Returned r, tr') ->
  exists c escaped data m z,
    get args (lit "city") = VStr c /\ c <> []
    /\ encodeURIComponent (toLowerCase host c) = Some escaped
    /\ weather w (List.length tr) (weather_url escaped) = Fulfilled data
    /\ tr' = tr ++ [HttpGet (weather_url escaped)]
    /\ str_match re_temp (trim data) = Some m
    /\ Number (group1 m) = Int z
    /\ r = {| city := c;
              degree_c := Int z;
              condition := nonempty (trim (replace_empty re_temp_whole (trim data))) |}.
Proof.
  unfold getWeatherTool, weather_url.
  destruct (get args (lit "city")) as [| | b | n | c | items | fields];
    cbn [truthy is_string negb]; rewrite ?orb_true_r; try discriminate.
  destruct c as [|x c]; [discriminate |].
  cbn [negb orb as_string].
  destruct (encodeURIComponent _) as [escaped|] eqn:Henc; [| discriminate].
  unfold bind, await.
  destruct (weather w _ _) as [data | e] eqn:Hw; [| discriminate].
  unfold GetWeatherResultSchema_parse. cbn [degree_c].
  destruct (str_match re_temp (trim data)) as [m|] eqn:Hm; [| discriminate].
  destruct (Number_cases (group1 m)) as [Hn | [[b Hn] | [z Hn]]]; rewrite Hn;
    cbn [isFinite z_number]; try discriminate.
  intros H. injection H as <- <-.
  exists (x :: c), escaped, data, m, z.
  repeat split; try assumption; discriminate.
Qed.

Lemma getWeatherTool_returned_witness :
  exists c escaped data m z,
    get [(lit "city", VStr (lit "Paris"))] (lit "city") = VStr c /\ c <> []
    /\ encodeURIComponent (toLowerCase Examples.host c) = Some escaped
    /\ weather Scenarios.paris_world (List.length (@nil event)) (weather_url escaped)
       = Fulfilled data
    /\ [HttpGet (lit "https://wttr.in/paris?format=%C+%t")]
       = [] ++ [HttpGet (weather_url escaped)]
    /\ str_match re_temp (trim data) = Some m
    /\ Number (group1 m) = Int z
    /\ {| city := lit "Paris"; degree_c := Int 15;
          condition := Some (lit "Partly cloudy") |}
       = {| city := c;
            degree_c := Int z;
            condition := nonempty (trim (replace_empty re_temp_whole (trim data))) |}.
Proof.
  apply (@getWeatherTool_returned Examples.host Scenarios.paris_world
           [(lit "city", VStr (lit "Paris"))] []).
  vm_compute. reflexivity.
Defined.

Lemma uri_unreserved_hex (n : N) :
  (n < 16)%N -> uri_unreserved (hex_digit n) = true.
Proof.
  intros Hn. unfold uri_unreserved, hex_digit, is_digit.
  destruct (N.ltb_spec n 10);
    rewrite !orb_true_iff, !andb_true_iff, !N.leb_le, !N.eqb_eq; lia.
Qed.

Lemma percent_safe (octet : N) :
  (octet < 256)%N -> forallb url_safe (percent octet) = true.
Proof.
  intros H. unfold percent, url_safe. cbn [forallb].
  rewrite !uri_unreserved_hex.
  - reflexivity.
  - apply N.mod_lt. discriminate.
  - apply N.Div0.div_lt_upper_bound. lia.
Qed.

Lemma utf8_octets (cp : N) :
  (cp < 1114112)%N -> Forall (fun o => (o < 256)%N) (utf8 cp).
Proof.
  intros H. unfold utf8.
  assert (Hm : forall a, (128 + a mod 64 < 256)%N).
  { intros a. pose proof (N.mod_lt a 64). lia. }
  destruct (N.ltb_spec cp 128); [repeat constructor; lia |].
  destruct (N.ltb_spec cp 2048).
  { repeat constructor; [| apply Hm].
    assert (cp / 64 < 32)%N by (apply N.Div0.div_lt_upper_bound; lia). lia. }
  destruct (N.ltb_spec cp 65536).
  { repeat constructor; try apply Hm.
    assert (cp / 4096 < 16)%N by (apply N.Div0.div_lt_upper_bound; lia). lia. }
  repeat constructor; try apply Hm.
  assert (cp / 262144 < 16)%N by (apply N.Div0.div_lt_upper_bound; lia). lia.
Qed.

Lemma escaped_safe (cp : N) :
  (cp < 1114112)%N -> forallb url_safe (flat_map percent (utf8 cp)) = true.
Proof.
  intros H. pose proof (utf8_octets H) as HF.
  induction HF as [|o os Ho _ IH]; [reflexivity |].
  cbn [flat_map]. rewrite forallb_app, percent_safe by assumption. assumption.
Qed.

Lemma encodeURIComponent_cons (c : char16) (s : jsstring) :
  encodeURIComponent (c :: s) =
  if uri_unreserved c then option_map (cons c) (encodeURIComponent s)
  else if is_low_surrogate c then None
  else if is_high_surrogate c then
    match s with
    | d :: s'' =>
        if is_low_surrogate d then
          option_map (app (flat_map percent (utf8 (pair_code_point c d))))
                     (encodeURIComponent s'')
        else None
    | [] => None
    end
  else option_map (app (flat_map percent (utf8 c))) (encodeURIComponent s).
Proof. reflexivity. Qed.

(** The output of [encodeURIComponent] has no character that could end or
    split the path segment it is put in. *)
Lemma encodeURIComponent_safe (n : nat) :
  forall s out,
    List.length s <= n ->
    Forall code_unit s ->
    encodeURIComponent s = Some out ->
    forallb url_safe out = true.
Proof.
  induction n as [|n IH]; intros s out Hlen Hs H.
  - destruct s; [| cbn in Hlen; lia]. cbn in H. now injection H as <-.
  - destruct s as [|c s]; [cbn in H; now injection H as <- |].
    cbn [List.length] in Hlen.
    inversion Hs as [|? ? Hc Hs']; subst. unfold code_unit in Hc.
    rewrite encodeURIComponent_cons in H.
    destruct (uri_unreserved c) eqn:Hu.
    { destruct (encodeURIComponent s) as [o|] eqn:He; [| discriminate].
      injection H as <-. cbn [forallb]. unfold url_safe at 1. rewrite Hu.
      apply (IH s); [lia | assumption | assumption]. }
    destruct (is_low_surrogate c); [discriminate |].
    destruct (is_high_surrogate c) eqn:Hh.
    + destruct s as [|d s]; [discriminate |].
      destruct (is_low_surrogate d) eqn:Hl; [| discriminate].
      destruct (encodeURIComponent s) as [o|] eqn:He; [| discriminate].
      injection H as <-. rewrite forallb_app.
      inversion Hs' as [|? ? Hd Hs'']; subst.
      rewrite (IH s o); [| cbn in Hlen; lia | assumption | assumption].
      rewrite escaped_safe; [reflexivity |].
      unfold is_high_surrogate, is_low_surrogate, pair_code_point in *.
      rewrite andb_true_iff, !N.leb_le in Hh, Hl. lia.
    + destruct (encodeURIComponent s) as [o|] eqn:He; [| discriminate].
      injection H as <-. rewrite forallb_app.
      rewrite (IH s o); [| lia | assumption | assumption].
      rewrite escaped_safe; [reflexivity | lia].
Qed.

(** X4.  [getWeatherTool] makes no request or exactly one, and the URL of
    that request is ["https://wttr.in/"], a segment made only of unreserved
    characters and [%], and ["?format=%C+%t"]: whatever the city, it cannot
    change the host, the path depth or the query. *)
Theorem getWeatherTool_request (host : Host) (w : World) args tr :
  Forall code_unit (toLowerCase host (as_string (get args (lit "city")))) ->
  snd (getWeatherTool host w args tr) = tr
  \/ exists segment,
       forallb url_safe segment = true
       /\ snd (getWeatherTool host w args tr) = tr ++ [HttpGet (weather_url segment)].
Proof.
  intros Hvalid. unfold getWeatherTool.
  destruct (negb _ || negb _); [now left |].
  destruct (encodeURIComponent _) as [escaped|] eqn:Henc; [| now left].
  right. exists escaped.
  split; [apply (encodeURIComponent_safe (le_n _) Hvalid Henc) |].
  unfold bind, await, weather_url.
  destruct (weather w _ _); [| reflexivity].
  unfold GetWeatherResultSchema_parse. destruct (z_number _); reflexivity.
Qed.

Lemma getWeatherTool_request_witness :
  snd (getWeatherTool Examples.host Scenarios.paris_world Scenarios.sao_paulo []) = []
  \/ exists segment,
       forallb url_safe segment = true
       /\ snd (getWeatherTool Examples.host Scenarios.paris_world Scenarios.sao_paulo [])
          = [] ++ [HttpGet (weather_url segment)].
Proof.
  apply (@getWeatherTool_request Examples.host Scenarios.paris_world Scenarios.sao_paulo []).
  repeat (constructor; [reflexivity |]). constructor.
Defined.

Example request_for_sao_paulo :
  snd (getWeatherTool Examples.host Scenarios.paris_world Scenarios.sao_paulo [])
  = [HttpGet (lit "https://wttr.in/s%C3%A3o%20paulo?format=%C+%t")].
Proof. vm_compute. reflexivity. Qed.

(** X5.  [sendEmailTool] either throws before any input or output, which
    it does exactly when a mail setting is missing or the arguments are
    rejected, or it submits one message (sender [FROM_EMAIL], recipient,
    subject and text as given) and returns the relay's [messageId], or
    throws the relay's error. *)
Theorem sendEmailTool_outcome (host : Host) (w : World) args tr :
  ((smtp_config_missing (env w) = true \/ valid_email_params host args = false)
   /\ snd (sendEmailTool host w args tr) = tr
   /\ exists e, fst (sendEmailTool host w args tr) = Thrown e)
  \/
  (smtp_config_missing (env w) = false
   /\ valid_email_params host args = true
   /\ snd (sendEmailTool host w args tr)
      = tr ++ [SmtpSend (transport_of (env w)) (mail_of (env w) args)]
   /\ fst (sendEmailTool host w args tr)
      = match relay w (List.length tr) (transport_of (env w)) (mail_of (env w) args) with
        | Fulfilled messageId => Returned (EmailOutput messageId)
        | Rejected e => Thrown e
        end).
Proof.
  unfold sendEmailTool, smtp_config_missing, valid_email_params, transport_of, mail_of.
  destruct (missing (SMTP_HOST (env w)) || missing (SMTP_PORT (env w))
            || missing (SMTP_USER (env w)) || missing (SMTP_PASS (env w))
            || missing (FROM_EMAIL (env w))).
  { left. cbn. eauto. }
  unfold bind, SendEmailParamsSchema_parse.
  destruct (_ && _ && _).
  - right. unfold ret, await. cbn [toEmail subject body].
    destruct (relay w _ _ _); cbn; auto.
  - left. cbn. eauto.
Qed.

(* ================================================================== *)
(** ** What a run can do: a small logic of traces *)

Lemma emits_ret {A} (P : event -> Prop) (Q : A -> Prop) (a : A) :
  Q a -> emits P Q (ret a).
Proof. intros H tr. exists []. cbn. rewrite app_nil_r. auto. Qed.

Lemma emits_throw {A} (P : event -> Prop) (Q : A -> Prop) (e : exn) :
  emits P Q (throw e).
Proof. intros tr. exists []. cbn. rewrite app_nil_r. auto. Qed.

Lemma emits_emit (P : event -> Prop) (Q : unit -> Prop) (ev : event) :
  P ev -> Q tt -> emits P Q (emit ev).
Proof. intros HP HQ tr. exists [ev]. cbn. auto. Qed.

Lemma emits_await {A} (P : event -> Prop) (Q : A -> Prop) ev (answer : nat -> settled A) :
  P ev -> (forall t a, answer t = Fulfilled a -> Q a) -> emits P Q (await ev answer).
Proof.
  intros HP HQ tr. exists [ev]. unfold await.
  destruct (answer (List.length tr)) eqn:Ha; cbn; eauto.
Qed.

Lemma emits_bind {A B} (P : event -> Prop) (Q : A -> Prop) (R : B -> Prop)
      (m : M A) (k : A -> M B) :
  emits P Q m -> (forall a, Q a -> emits P R (k a)) -> emits P R (bind m k).
Proof.
  intros Hm Hk tr. unfold bind.
  destruct (Hm tr) as (evs & Htr & HP & HQ).
  destruct (m tr) as [[a | e |] tr1]; cbn [fst snd] in *; subst tr1.
  - destruct (Hk a HQ (tr ++ evs)) as (evs' & Htr' & HP' & HR).
    exists (evs ++ evs'). rewrite Htr', app_assoc.
    split; [reflexivity |]. split; [now apply Forall_app | assumption].
  - exists evs. auto.
  - exists evs. auto.
Qed.

Lemma emits_weaken {A} (P P' : event -> Prop) (Q Q' : A -> Prop) (m : M A) :
  (forall ev, P ev -> P' ev) -> (forall a, Q a -> Q' a) ->
  emits P Q m -> emits P' Q' m.
Proof.
  intros HP HQ Hm tr. destruct (Hm tr) as (evs & Htr & HF & Hq).
  exists evs. split; [assumption |]. split; [eapply Forall_impl; eauto |].
  destruct (fst (m tr)); auto.
Qed.

Lemma combine_app_eq {A B} (l1 : list A) :
  forall (l1' : list B) l2 l2',
    List.length l1 = List.length l1' ->
    combine (l1 ++ l2) (l1' ++ l2') = combine l1 l1' ++ combine l2 l2'.
Proof.
  induction l1 as [|a l1 IH]; intros [|b l1'] l2 l2' H; try discriminate;
    [reflexivity |].
  cbn. rewrite IH; [reflexivity | now injection H].
Qed.

Section Discipline.

Variable host : Host.
Variable w : World.

Lemma getWeatherTool_emits args :
  emits (io_event host w) anything (getWeatherTool host w args).
Proof.
  unfold getWeatherTool.
  destruct (negb _ || negb _); [apply emits_throw |].
  destruct (encodeURIComponent _) as [escaped|]; [| apply emits_throw].
  eapply emits_bind with (Q := anything).
  - apply emits_await; [cbn; eauto | easy].
  - intros data _. unfold GetWeatherResultSchema_parse.
    destruct (z_number _); [now apply emits_ret | apply emits_throw].
Qed.

Lemma sendEmailTool_emits args :
  emits (io_event host w) anything (sendEmailTool host w args).
Proof.
  unfold sendEmailTool.
  destruct (_ || _) eqn:Hcfg; [apply emits_throw |].
  eapply emits_bind
    with (Q := fun p => z_email host (toEmail p) = true
                        /\ subject p <> [] /\ body p <> []).
  - unfold SendEmailParamsSchema_parse.
    destruct (_ && _ && _) eqn:Hv; [| apply emits_throw].
    apply emits_ret.
    apply andb_true_iff in Hv as [Hv Hb]. apply andb_true_iff in Hv as [Ht Hs].
    cbn [toEmail subject body].
    destruct (get args (lit "toEmail")); try discriminate.
    destruct (get args (lit "subject")) as [| | | | [|? ?] | |]; try discriminate.
    destruct (get args (lit "body")) as [| | | | [|? ?] | |]; try discriminate.
    cbn. repeat split; [assumption | discriminate | discriminate].
  - intros p (Ht & Hs & Hb).
    eapply emits_bind with (Q := anything); [| intros; now apply emits_ret].
    apply emits_await; [| easy].
    cbn. repeat split; assumption.
Qed.

(** The tool proper: [call_tool] after its mark in the trace. *)
Lemma tool_body_emits name args :
  emits (io_event host w) anything
        (match toolsMap name with
         | Some get_weather => r <- getWeatherTool host w args ;; ret (WeatherOutput r)
         | Some send_email => sendEmailTool host w args
         | None =>
             match prototype_call host name args with
             | Fulfilled v => ret v
             | Rejected e => throw e
             end
         end).
Proof.
  destruct (toolsMap name) as [[|]|].
  - eapply emits_bind; [apply getWeatherTool_emits | intros; now apply emits_ret].
  - apply sendEmailTool_emits.
  - destruct (prototype_call host name args); [now apply emits_ret | apply emits_throw].
Qed.

(** A tool call marks the trace and then does only its own input and
    output. *)
Lemma call_tool_trace name args tr :
  exists evs,
    snd (call_tool host w name args tr) = tr ++ ToolInvoke name args :: evs
    /\ Forall (io_event host w) evs.
Proof.
  unfold call_tool, bind at 1, emit.
  destruct (tool_body_emits name args (tr ++ [ToolInvoke name args]))
    as (evs & Htr & HF & _).
  exists evs. rewrite Htr, <- app_assoc. auto.
Qed.

Lemma io_is_tool_event ev : io_event host w ev -> tool_event host w ev.
Proof. destruct ev; cbn; tauto. Qed.

Lemma tool_is_expected ev : tool_event host w ev -> expected host w ev.
Proof. destruct ev; cbn; tauto. Qed.

Lemma call_tool_emits name args :
  in_toolsMap name = true ->
  emits (tool_event host w) anything (call_tool host w name args).
Proof.
  intros Hin tr. destruct (call_tool_trace name args tr) as (evs & Htr & HF).
  exists (ToolInvoke name args :: evs). split; [assumption |].
  split; [| now destruct (fst _)].
  constructor; [exact Hin |].
  eapply Forall_impl; [apply io_is_tool_event | assumption].
Qed.

Lemma conversation_initial : conversation w (initial_history w).
Proof.
  exists [], []. split; [reflexivity |].
  unfold recorded. cbn [combine flat_map]. now rewrite app_nil_r.
Qed.

Lemma conversation_step h call out :
  conversation w h ->
  conversation w ((h ++ [model_turn call]) ++ [tool_turn (name call) out]).
Proof.
  intros (calls & results & Hlen & ->).
  exists (calls ++ [call]), (results ++ [out]).
  split; [rewrite !length_app; cbn; lia |].
  unfold recorded. rewrite combine_app_eq by (symmetry; exact Hlen).
  rewrite flat_map_app. cbn. rewrite <- !app_assoc. reflexivity.
Qed.

(** A batch does only what tool calls do, and keeps any property of the
    history that adding a model turn and a tool turn keeps. *)
Lemma dispatch_emits (I : list Content -> Prop) calls :
  (forall h call out,
      I h -> I ((h ++ [model_turn call]) ++ [tool_turn (name call) out])) ->
  forall h, I h -> emits (tool_event host w) I (dispatch host w calls h).
Proof.
  intros Hstep.
  induction calls as [|call calls IH]; intros h Hh; cbn [dispatch].
  - now apply emits_ret.
  - destruct (in_toolsMap (name call)) eqn:Hin; cbn [negb]; [| apply emits_throw].
    eapply emits_bind; [now apply call_tool_emits |].
    intros out _. apply IH. now apply Hstep.
Qed.

Lemma tool_loop_emits b :
  forall c h r, conversation w h ->
                emits (expected host w) anything (tool_loop host w b c h r).
Proof.
  induction b as [|b IH]; intros c h r Hh.
  - intros tr. exists []. rewrite app_nil_r. cbn. auto.
  - rewrite tool_loop_S.
    destruct (6 <? S c); [apply emits_throw |].
    destruct (extractFunctionCalls r) as [|call calls]; [now apply emits_ret |].
    eapply emits_bind.
    { eapply emits_weaken;
        [apply tool_is_expected | intros a Ha; exact Ha
         | apply dispatch_emits; [apply conversation_step | assumption]]. }
    intros h' Hh'.
    eapply emits_bind with (Q := anything); [now apply emits_await |].
    intros r' _. now apply IH.
Qed.

Lemma final_response_emits :
  emits (expected host w) anything (final_response host w).
Proof.
  unfold final_response.
  eapply emits_bind with (Q := anything).
  - apply emits_await; [apply conversation_initial | easy].
  - intros r _. apply tool_loop_emits, conversation_initial.
Qed.

Lemma main_final_response tr :
  main host w tr
  = bind (final_response host w) (fun resp => emit (ConsoleLog (finalText resp))) tr.
Proof.
  unfold main, final_response, bind.
  destruct (generateContent w (initial_history w) tr) as [[r | e |] tr1]; reflexivity.
Qed.

(** With every awaited request settling, a run ends, and its trace is what
    the loop did followed by one line on the console. *)
Lemma run_trace :
  exists evs last,
    snd (run host w) = evs ++ [last]
    /\ Forall (expected host w) evs
    /\ ((fst (run host w) = Some 0 /\ exists resp, last = ConsoleLog (finalText resp))
        \/ (fst (run host w) = Some 1 /\ exists e, last = ConsoleError e)).
Proof.
  pose proof (main_ends host w) as Hends.
  unfold run in *. rewrite main_final_response in *. unfold bind in *.
  destruct (final_response_emits []) as (evs & Htr & HF & _).
  destruct (final_response host w []) as [[resp | e |] tr]; cbn [fst snd] in *;
    subst tr; cbn [app] in *.
  - exists evs, (ConsoleLog (finalText resp)). unfold emit. cbn. eauto 8.
  - exists evs, (ConsoleError e). cbn. eauto 8.
  - congruence.
Qed.

End Discipline.

Lemma run_snd (host : Host) (w : World) :
  exists last,
    snd (run host w) = snd (final_response host w []) ++ [last]
    /\ ((fst (run host w) = Some 0
         /\ exists resp, fst (final_response host w []) = Returned resp
                         /\ last = ConsoleLog (finalText resp))
        \/ (fst (run host w) = Some 1
            /\ exists e, fst (final_response host w []) = Thrown e
                         /\ last = ConsoleError e)).
Proof.
  pose proof (main_ends host w) as Hends.
  unfold run in *. rewrite main_final_response in *. unfold bind in *.
  destruct (final_response host w []) as [[resp | e |] tr]; cbn [fst snd] in *.
  - exists (ConsoleLog (finalText resp)). unfold emit. cbn. eauto 8.
  - exists (ConsoleError e). cbn. eauto 8.
  - congruence.
Qed.

Lemma run_trace_all (host : Host) (w : World) (R : event -> Prop) :
  (forall ev, expected host w ev -> R ev) ->
  (forall s, R (ConsoleLog s)) -> (forall e, R (ConsoleError e)) ->
  Forall R (snd (run host w)).
Proof.
  intros Hexp Hlog Herr.
  destruct (run_trace host w) as (evs & last & -> & HF & Hlast).
  apply Forall_app. split; [eapply Forall_impl; eauto |].
  constructor; [| constructor].
  destruct Hlast as [[_ [resp ->]] | [_ [e ->]]]; auto.
Qed.

(* ================================================================== *)
(** ** Properties of every run *)

(** X6.  A run that ends, which needs every request it awaited to have
    settled, ends with status 0 or 1 and has written to the console exactly
    once, as the last thing it did: the final text with status 0, the error
    with status 1. *)
Theorem run_console (host : Host) (w : World) (code : nat) (tr : trace) :
  run host w = (Some code, tr) ->
  exists evs last,
    tr = evs ++ [last]
    /\ Forall (fun ev => is_console ev = false) evs
    /\ ((code = 0 /\ exists resp, last = ConsoleLog (finalText resp))
        \/ (code = 1 /\ exists e, last = ConsoleError e)).
Proof.
  intros Hrun.
  destruct (run_trace host w) as (evs & last & Htr & HF & Hlast).
  rewrite Hrun in Htr, Hlast. cbn [fst snd] in Htr, Hlast.
  exists evs, last. split; [assumption |]. split.
  - eapply Forall_impl; [| exact HF].
    intros [h | n a | url | t m | s | e]; cbn; tauto.
  - destruct Hlast as [(Hcode & H) | (Hcode & H)]; injection Hcode as <-; auto.
Qed.

Lemma run_console_witness :
  exists evs last,
    snd (run Examples.host Scenarios.weather_mail_done) = evs ++ [last]
    /\ Forall (fun ev => is_console ev = false) evs
    /\ ((0 = 0 /\ exists resp, last = ConsoleLog (finalText resp))
        \/ (0 = 1 /\ exists e, last = ConsoleError e)).
Proof.
  apply (@run_console Examples.host Scenarios.weather_mail_done 0
           (snd (run Examples.host Scenarios.weather_mail_done))).
  vm_compute. reflexivity.
Defined.

(** X7.  No run calls a tool under a name that fails the test
    [name in toolsMap]. *)
Theorem run_invokes_only_registered (host : Host) (w : World) :
  Forall (fun ev => match ev with
                    | ToolInvoke n _ => in_toolsMap n = true
                    | _ => True
                    end)
         (snd (run host w)).
Proof.
  apply run_trace_all; [| auto | auto].
  intros [h | n a | url | t m | s | e]; cbn; tauto.
Qed.

(** X8.  Whatever the model asks for, a run submits mail only with every
    mail setting present, through the configured transport, from
    [FROM_EMAIL], to a recipient that the schema accepts as an address, and
    with a non-empty subject and text. *)
Theorem run_mail_is_validated (host : Host) (w : World) :
  Forall (fun ev => match ev with
                    | SmtpSend t m =>
                        smtp_config_missing (env w) = false
                        /\ t = transport_of (env w)
                        /\ mail_from m = value (FROM_EMAIL (env w))
                        /\ z_email host (mail_to m) = true
                        /\ mail_subject m <> []
                        /\ mail_text m <> []
                    | _ => True
                    end)
         (snd (run host w)).
Proof.
  apply run_trace_all; [| auto | auto].
  intros [h | n a | url | t m | s | e]; cbn; tauto.
Qed.

Lemma recorded_app calls :
  forall results cs outs,
    List.length calls = List.length results ->
    recorded (calls ++ cs) (results ++ outs)
    = recorded calls results ++ recorded cs outs.
Proof.
  intros results cs outs Hlen. unfold recorded.
  now rewrite combine_app_eq, flat_map_app by assumption.
Qed.

Lemma reached_length (host : Host) (w : World) tr calls results :
  reached host w tr calls results -> List.length results = List.length calls.
Proof.
  induction 1 as [|tr calls results r outs tr' _ IH _ Hp]; [reflexivity |].
  rewrite !length_app, IH. f_equal. exact (processed_length _ _ _ _ _ _ Hp).
Qed.

Lemma model_calls_ok_app (host : Host) (w : World) a :
  forall pre b,
    model_calls_ok host w pre (a ++ b)
    <-> model_calls_ok host w pre a /\ model_calls_ok host w (pre ++ a) b.
Proof.
  induction a as [|ev a IH]; intros pre b; cbn [app model_calls_ok].
  - rewrite app_nil_r. tauto.
  - rewrite IH, <- app_assoc. cbn [app]. tauto.
Qed.

Lemma model_calls_ok_tools (host : Host) (w : World) evs :
  Forall (tool_event host w) evs -> forall pre, model_calls_ok host w pre evs.
Proof.
  induction 1 as [|ev evs Hev _ IH]; intros pre; cbn [model_calls_ok]; [exact I |].
  split; [| apply IH]. destruct ev; cbn in Hev; try contradiction; exact I.
Qed.

Lemma model_calls_ok_split (host : Host) (w : World) p :
  forall pre h rest,
    model_calls_ok host w pre (p ++ ModelCall h :: rest) ->
    exists calls results,
      reached host w (pre ++ p) calls results
      /\ h = initial_history w ++ recorded calls results.
Proof.
  intros pre h rest H. apply model_calls_ok_app in H as [_ H].
  cbn [model_calls_ok] in H. exact (proj1 H).
Qed.

(** The loop, entered after the model answered [r] to the history [h]. *)
Lemma tool_loop_reached (host : Host) (w : World) b :
  forall c h r tr0 calls results,
    reached host w tr0 calls results ->
    h = initial_history w ++ recorded calls results ->
    model w (List.length tr0) h = Fulfilled r ->
    exists evs,
      snd (tool_loop host w b c h r (tr0 ++ [ModelCall h]))
      = (tr0 ++ [ModelCall h]) ++ evs
      /\ model_calls_ok host w (tr0 ++ [ModelCall h]) evs.
Proof.
  induction b as [|b IH]; intros c h r tr0 calls results Hreached Hh Hr;
    [exists []; rewrite app_nil_r; cbn; auto |].
  rewrite tool_loop_S.
  destruct (6 <? S c); [exists []; rewrite app_nil_r; cbn; auto |].
  destruct (extractFunctionCalls r) as [|call rest] eqn:Hext;
    [exists []; rewrite app_nil_r; cbn; auto |].
  rewrite <- Hext.
  set (tr := tr0 ++ [ModelCall h]).
  destruct (@dispatch_emits host w anything (extractFunctionCalls r)
              (fun _ _ _ _ => I) h I tr) as (evs1 & Htr1 & HF1 & _).
  pose proof (model_calls_ok_tools HF1 tr) as Hok1.
  unfold bind at 1.
  destruct (dispatch host w (extractFunctionCalls r) h tr) as [[h1 | e |] tr1] eqn:Hd;
    cbn [snd] in Htr1; subst tr1;
    try (exists evs1; split; [reflexivity | assumption]).
  destruct (dispatch_processed _ _ _ _ _ Hd) as (outs & Hp & Hh1).
  assert (Hnext : reached host w (tr ++ evs1)
                    (calls ++ extractFunctionCalls r) (results ++ outs)).
  { subst h. eapply reached_round; eassumption. }
  assert (Hh1' : h1 = initial_history w
                      ++ recorded (calls ++ extractFunctionCalls r) (results ++ outs)).
  { rewrite recorded_app by (symmetry; exact (reached_length Hreached)).
    rewrite app_assoc, <- Hh. exact Hh1. }
  assert (Hhere : model_calls_ok host w (tr ++ evs1) [ModelCall h1]).
  { cbn [model_calls_ok]. split; [eauto | exact I]. }
  unfold bind, generateContent, await.
  destruct (model w (List.length (tr ++ evs1)) h1) as [r1 | e] eqn:Hm.
  - destruct (IH (S c) h1 r1 (tr ++ evs1) _ _ Hnext Hh1' Hm) as (evs2 & Htr2 & Hok2).
    exists (evs1 ++ [ModelCall h1] ++ evs2).
    split; [rewrite Htr2, <- !app_assoc; reflexivity |].
    apply model_calls_ok_app. split; [assumption |].
    apply model_calls_ok_app. split; assumption.
  - exists (evs1 ++ [ModelCall h1]). cbn [snd].
    split; [now rewrite <- !app_assoc |].
    apply model_calls_ok_app. split; assumption.
Qed.

Lemma run_model_calls_ok (host : Host) (w : World) :
  model_calls_ok host w [] (snd (run host w)).
Proof.
  destruct (run_snd host w) as (last & Htr & Hlast).
  rewrite Htr. apply model_calls_ok_app. split.
  2:{ cbn [model_calls_ok].
      destruct Hlast as [(_ & resp & _ & ->) | (_ & e & _ & ->)]; auto. }
  assert (Hstart : exists calls results,
             reached host w [] calls results
             /\ initial_history w = initial_history w ++ recorded calls results).
  { exists [], []. split; [constructor |]. unfold recorded. cbn [combine flat_map].
    now rewrite app_nil_r. }
  unfold final_response, bind, generateContent, await. cbn [List.length].
  destruct (model w 0 (initial_history w)) as [r | e] eqn:Hm.
  - destruct (@tool_loop_reached host w 7 0 (initial_history w) r [] [] [])
      as (evs & Htl & Hok);
      [constructor
      | unfold recorded; cbn [combine flat_map]; now rewrite app_nil_r
      | exact Hm |].
    cbn [app] in *. rewrite Htl.
    cbn [app model_calls_ok]. split; assumption.
  - cbn [snd app model_calls_ok]. split; [assumption | exact I].
Qed.

(** X9.  Every history sent to the model is the user turn followed by
    pairs of turns, one pair per tool request processed so far and in that
    order: the requests are exactly those the model has made until then,
    batch after batch; each pair is a model turn with the request and a
    tool turn with the same name and what the call of the tool returned. *)
Theorem run_history_shape (host : Host) (w : World) tr0 h rest :
  snd (run host w) = tr0 ++ ModelCall h :: rest ->
  exists calls results,
    reached host w tr0 calls results
    /\ List.length results = List.length calls
    /\ h = initial_history w ++ recorded calls results.
Proof.
  intros Htr. pose proof (run_model_calls_ok host w) as Hok.
  rewrite Htr in Hok.
  destruct (@model_calls_ok_split host w tr0 [] h rest Hok)
    as (calls & results & Hreached & Hh).
  exists calls, results. cbn [app] in Hreached.
  split; [assumption |]. split; [exact (reached_length Hreached) | assumption].
Qed.

Lemma run_history_shape_witness :
  exists calls results,
    reached Examples.host Scenarios.weather_mail_done
      (firstn 3 (snd (run Examples.host Scenarios.weather_mail_done))) calls results
    /\ List.length results = List.length calls
    /\ initial_history Scenarios.weather_mail_done
       ++ [model_turn (Examples.weather_call (lit "Paris"));
           tool_turn (lit "get_weather")
             (WeatherOutput {| city := lit "Paris"; degree_c := Int 15;
                               condition := Some (lit "Partly cloudy") |})]
       = initial_history Scenarios.weather_mail_done ++ recorded calls results.
Proof.
  apply (@run_history_shape Examples.host Scenarios.weather_mail_done
           (firstn 3 (snd (run Examples.host Scenarios.weather_mail_done)))
           (initial_history Scenarios.weather_mail_done
            ++ [model_turn (Examples.weather_call (lit "Paris"));
                tool_turn (lit "get_weather")
                  (WeatherOutput {| city := lit "Paris"; degree_c := Int 15;
                                    condition := Some (lit "Partly cloudy") |})])
           (skipn 4 (snd (run Examples.host Scenarios.weather_mail_done)))).
  vm_compute. reflexivity.
Defined.

Lemma histories_app (tr1 tr2 : trace) :
  histories (tr1 ++ tr2) = histories tr1 ++ histories tr2.
Proof.
  unfold histories. induction tr1 as [|ev tr1 IH]; [reflexivity |].
  cbn. destruct ev; cbn; now rewrite IH.
Qed.

Lemma histories_tool_events (host : Host) (w : World) (evs : trace) :
  Forall (tool_event host w) evs -> histories evs = [].
Proof.
  induction 1 as [|ev evs Hev _ IH]; [reflexivity |].
  destruct ev; cbn in *; try contradiction; assumption.
Qed.

Lemma tool_loop_growing (host : Host) (w : World) b :
  forall c h r tr, exists evs,
    snd (tool_loop host w b c h r tr) = tr ++ evs
    /\ growing h (histories evs).
Proof.
  induction b as [|b IH]; intros c h r tr.
  - exists []. rewrite app_nil_r. cbn. auto.
  - rewrite tool_loop_S.
    destruct (6 <? S c); [exists []; rewrite app_nil_r; cbn; auto |].
    destruct (extractFunctionCalls r) as [|call calls];
      [exists []; rewrite app_nil_r; cbn; auto |].
    unfold bind at 1.
    destruct (@dispatch_emits host w (fun h' => exists more, h' = h ++ more)
                (call :: calls)) with (h := h) (tr := tr)
      as (evs1 & Htr1 & HF1 & Hh1).
    { intros h0 c0 out [more ->]. rewrite <- !app_assoc. eauto. }
    { exists []. now rewrite app_nil_r. }
    pose proof (histories_tool_events HF1) as Hnone.
    destruct (dispatch host w (call :: calls) h tr) as [[h1 | e |] tr1];
      cbn [fst snd] in *; subst tr1;
      try (exists evs1; rewrite Hnone; cbn; auto; fail).
    unfold bind, generateContent, await.
    destruct (model w _ _) as [r1 | e].
    + destruct (IH (S c) h1 r1 ((tr ++ evs1) ++ [ModelCall h1])) as (evs2 & Htr2 & Hg2).
      exists (evs1 ++ [ModelCall h1] ++ evs2).
      rewrite Htr2, !histories_app, Hnone, <- !app_assoc.
      split; [reflexivity |]. cbn. auto.
    + exists (evs1 ++ [ModelCall h1]). cbn [snd].
      rewrite histories_app, Hnone, <- app_assoc.
      split; [reflexivity |]. cbn. auto.
Qed.

(** X10.  The conversation only grows: the first request to the model
    carries the user turn alone, and every later request carries the
    history of the request before it, unchanged, followed by new turns. *)
Theorem run_history_grows (host : Host) (w : World) :
  exists hs,
    histories (snd (run host w)) = initial_history w :: hs
    /\ growing (initial_history w) hs.
Proof.
  destruct (run_snd host w) as (last & Htr & Hlast).
  assert (Hl : histories [last] = []).
  { destruct Hlast as [(_ & resp & _ & ->) | (_ & e & _ & ->)]; reflexivity. }
  rewrite Htr, histories_app, Hl, app_nil_r.
  unfold final_response, bind, generateContent, await. cbn [List.length app].
  destruct (model w 0 (initial_history w)) as [r | e].
  - destruct (tool_loop_growing host w 7 0 (initial_history w) r
                [ModelCall (initial_history w)]) as (evs & -> & Hg).
    exists (histories evs). split; [reflexivity | assumption].
  - exists []. split; [reflexivity | exact I].
Qed.

Lemma tool_loop_returned (host : Host) (w : World) b :
  forall c h r tr r' tr',
    tool_loop host w b c h r tr = (Returned r', tr') ->
    extractFunctionCalls r' = []
    /\ model_calls tr' + c <= model_calls tr + 5
    /\ ((r' = r /\ tr' = tr)
        \/ exists tr0 h', tr' = tr0 ++ [ModelCall h']
                          /\ model w (List.length tr0) h' = Fulfilled r').
Proof.
  induction b as [|b IH]; intros c h r tr r' tr' H; [discriminate |].
  rewrite tool_loop_S in H.
  destruct (Nat.ltb_spec 6 (S c)) as [Hc | Hc]; [discriminate |].
  destruct (extractFunctionCalls r) as [|call calls] eqn:Hext.
  - injection H as <- <-. split; [assumption |]. split; [lia | now left].
  - unfold bind at 1 in H.
    pose proof (dispatch_offline host w (call :: calls) h tr) as [_ Hd].
    destruct (dispatch host w (call :: calls) h tr) as [[h1 | e |] tr1];
      try discriminate.
    cbn [snd] in Hd.
    unfold bind, generateContent, await in H.
    destruct (model w (List.length tr1) h1) as [r1 | e] eqn:Hm; [| discriminate].
    apply IH in H. destruct H as (Hno & Hcount & Hlast).
    rewrite model_calls_app in Hcount.
    change (model_calls [ModelCall h1]) with 1 in Hcount.
    split; [assumption |]. split; [lia |].
    right. destruct Hlast as [[-> ->] | Hlast]; [eauto | assumption].
Qed.

(** X11.  A run that ends with status 0 asked the model at most six
    times; its last two events are the last request to the model and the
    print; what it prints is the final text of the answer to that request,
    and that answer had no tool calls. *)
Theorem run_success (host : Host) (w : World) (tr : trace) :
  run host w = (Some 0, tr) ->
  exists tr0 h resp,
    tr = tr0 ++ [ModelCall h; ConsoleLog (finalText resp)]
    /\ model w (List.length tr0) h = Fulfilled resp
    /\ extractFunctionCalls resp = []
    /\ model_calls tr <= 6.
Proof.
  intros Hrun.
  destruct (run_snd host w) as (last & Htr & Hlast).
  rewrite Hrun in *. cbn [fst snd] in *.
  destruct Hlast as [(_ & resp & Hresp & ->) | (Hone & _)]; [| discriminate].
  revert Htr Hresp.
  unfold final_response, bind, generateContent, await. cbn [List.length app].
  destruct (model w 0 (initial_history w)) as [r | e] eqn:Hm; [| discriminate].
  destruct (tool_loop host w 7 0 (initial_history w) r [ModelCall (initial_history w)])
    as [o tr1] eqn:Hloop.
  cbn [fst snd]. intros -> ->.
  apply tool_loop_returned in Hloop. destruct Hloop as (Hno & Hcount & Hlast).
  change (model_calls [ModelCall (initial_history w)]) with 1 in Hcount.
  assert (Hcalls : model_calls (tr1 ++ [ConsoleLog (finalText resp)]) <= 6).
  { rewrite model_calls_app.
    change (model_calls [ConsoleLog (finalText resp)]) with 0. lia. }
  destruct Hlast as [[-> ->] | (tr0 & h & -> & Hans)].
  - exists [], (initial_history w), r.
    repeat split; [assumption | assumption | exact Hcalls].
  - exists tr0, h, resp.
    repeat split; [now rewrite <- app_assoc | assumption | assumption | exact Hcalls].
Qed.

Lemma run_success_witness :
  exists tr0 h resp,
    snd (run Examples.host Scenarios.weather_mail_done)
    = tr0 ++ [ModelCall h; ConsoleLog (finalText resp)]
    /\ model Scenarios.weather_mail_done (List.length tr0) h = Fulfilled resp
    /\ extractFunctionCalls resp = []
    /\ model_calls (snd (run Examples.host Scenarios.weather_mail_done)) <= 6.
Proof.
  apply (@run_success Examples.host Scenarios.weather_mail_done).
  vm_compute. reflexivity.
Defined.

(** The scenario of the system instruction: weather, then mail, then a
    confirmation that is printed. *)
Example weather_then_mail :
  fst (run Examples.host Scenarios.weather_mail_done) = Some 0
  /\ invocations (snd (run Examples.host Scenarios.weather_mail_done))
     = [(lit "get_weather", [(lit "city", VStr (lit "Paris"))]);
        (lit "send_email", args_of Examples.good_email)]
  /\ last (snd (run Examples.host Scenarios.weather_mail_done)) (ConsoleLog [])
     = ConsoleLog (lit "Sent.").
Proof. repeat split; vm_compute; reflexivity. Qed.

Lemma invocations_app (tr1 tr2 : trace) :
  invocations (tr1 ++ tr2) = invocations tr1 ++ invocations tr2.
Proof.
  unfold invocations. induction tr1 as [|ev tr1 IH]; [reflexivity |].
  cbn. destruct ev; cbn; now rewrite IH.
Qed.

Lemma invocations_io (host : Host) (w : World) (evs : trace) :
  Forall (io_event host w) evs -> invocations evs = [].
Proof.
  induction 1 as [|ev evs Hev _ IH]; [reflexivity |].
  destruct ev; cbn in *; try contradiction; assumption.
Qed.

(** X12.  The tools of a batch are called one at a time in the order of
    the requests: the calls made are those of the first [k] requests, with
    the arguments as sent (or an empty object), and [k] is the whole batch
    when the batch is processed to its end. *)
Theorem dispatch_invokes_in_order (host : Host) (w : World) calls :
  forall h tr, exists k,
    k <= List.length calls
    /\ invocations (snd (dispatch host w calls h tr))
       = invocations tr ++ map (fun c => (name c, args_of c)) (firstn k calls)
    /\ match fst (dispatch host w calls h tr) with
       | Returned _ => k = List.length calls
       | _ => True
       end.
Proof.
  induction calls as [|call calls IH]; intros h tr.
  - exists 0. cbn. rewrite app_nil_r. auto.
  - cbn [dispatch].
    destruct (in_toolsMap (name call)); cbn [negb].
    2:{ exists 0. cbn. rewrite app_nil_r. repeat split; lia. }
    unfold bind.
    destruct (call_tool_trace host w (name call) (args_of call) tr) as (evs & Htr & HF).
    assert (Hinv : invocations (tr ++ ToolInvoke (name call) (args_of call) :: evs)
                   = invocations tr ++ [(name call, args_of call)]).
    { rewrite invocations_app. cbn. fold (invocations evs).
      now rewrite (invocations_io HF). }
    destruct (call_tool host w (name call) (args_of call) tr) as [[out | e |] tr1];
      cbn [fst snd] in *; subst tr1.
    + destruct (IH ((h ++ [model_turn call]) ++ [tool_turn (name call) out])
                  (tr ++ ToolInvoke (name call) (args_of call) :: evs))
        as (k & Hk & Hinv' & Hall).
      exists (S k). cbn [List.length firstn map].
      split; [lia |]. split.
      * rewrite Hinv', Hinv, <- app_assoc. reflexivity.
      * destruct (fst _); auto.
    + exists 1. cbn [List.length firstn map]. rewrite Hinv.
      split; [lia |]. split; [reflexivity | exact I].
    + exists 1. cbn [List.length firstn map]. rewrite Hinv.
      split; [lia |]. split; [reflexivity | exact I].
Qed.

(** X13.  Whatever a tool throws (a failed request to the weather
    service, a rejected result, an error of the relay) ends the loop with
    that same error, at the trace where it was thrown: nothing is recorded
    for the request, the requests after it are not processed, and the model
    is not asked again. *)
Theorem tool_error_is_fatal (host : Host) (w : World) b c history resp
        calls1 call calls2 tr h1 tr1 e tr2 :
  c < 6 ->
  extractFunctionCalls resp = calls1 ++ call :: calls2 ->
  in_toolsMap (name call) = true ->
  dispatch host w calls1 history tr = (Returned h1, tr1) ->
  call_tool host w (name call) (args_of call) tr1 = (Thrown e, tr2) ->
  tool_loop host w (S b) c history resp tr = (Thrown e, tr2).
Proof.
  intros Hc Hext Hin H1 H2.
  eapply tool_loop_request_thrown; [exact Hc | exact Hext | exact H1 |].
  cbn [dispatch]. rewrite Hin. cbn [negb].
  now apply bind_thrown.
Qed.

Lemma tool_error_is_fatal_witness :
  tool_loop Examples.host Scenarios.weather_down 7 0 []
    (Examples.respond [functionCallPart (Examples.weather_call (lit "Paris"))]) []
  = (Thrown (Rejection (lit "ENOTFOUND wttr.in")),
     [ToolInvoke (lit "get_weather") [(lit "city", VStr (lit "Paris"))];
      HttpGet (lit "https://wttr.in/paris?format=%C+%t")]).
Proof.
  apply (@tool_error_is_fatal Examples.host Scenarios.weather_down 6 0 []
           (Examples.respond [functionCallPart (Examples.weather_call (lit "Paris"))])
           [] (Examples.weather_call (lit "Paris")) [] [] [] []).
  - lia.
  - reflexivity.
  - reflexivity.
  - reflexivity.
  - reflexivity.
Defined.

Lemma join_cons_nonempty (sep t : jsstring) (ts : list jsstring) :
  t <> [] -> join sep (t :: ts) <> [].
Proof.
  intros Ht. destruct t as [|x t]; [congruence |].
  destruct ts; discriminate.
Qed.

(** X14.  What a run prints is never empty: it is the non-empty texts of
    the parts of the first candidate, joined by newlines, when there is at
    least one, and ["Done."] otherwise. *)
Theorem finalText_printable (resp : GenerateContentResult) :
  finalText resp <> []
  /\ finalText resp
     = match response_parts resp with
       | Some ps => match printable ps with
                    | [] => lit "Done."
                    | texts => join [10%N] texts
                    end
       | None => lit "Done."
       end.
Proof.
  unfold finalText. destruct (response_parts resp) as [ps|]; [| split; [discriminate | reflexivity]].
  fold (printable ps).
  destruct (printable ps) as [|t ts] eqn:Hp; [split; [discriminate | reflexivity] |].
  assert (Ht : t <> []).
  { assert (Hin : In t (printable ps)) by (rewrite Hp; now left).
    unfold printable in Hin. apply filter_In in Hin as [_ Hin].
    destruct t; [discriminate | discriminate]. }
  pose proof (join_cons_nonempty [10%N] ts Ht) as Hj.
  destruct (join [10%N] (t :: ts)); [congruence |].
  split; [discriminate | reflexivity].
Qed.

(* ================================================================== *)
(** ** The declarations and the registry *)

Lemma getWeatherTool_agree (host : Host) (w : World) args args' tr tr' :
  get args (lit "city") = get args' (lit "city") ->
  List.length tr = List.length tr' ->
  fst (getWeatherTool host w args tr) = fst (getWeatherTool host w args' tr')
  /\ exists evs,
       snd (getWeatherTool host w args tr) = tr ++ evs
       /\ snd (getWeatherTool host w args' tr') = tr' ++ evs.
Proof.
  intros Hcity Hlen. unfold getWeatherTool. rewrite <- Hcity.
  destruct (negb _ || negb _); [split; [reflexivity | exists []; now rewrite !app_nil_r] |].
  destruct (encodeURIComponent _);
    [| split; [reflexivity | exists []; now rewrite !app_nil_r]].
  unfold bind, await. rewrite <- Hlen.
  destruct (weather w _ _); [| cbn; eauto].
  unfold GetWeatherResultSchema_parse. destruct (z_number _); cbn; eauto.
Qed.

Lemma sendEmailTool_agree (host : Host) (w : World) args args' tr tr' :
  get args (lit "toEmail") = get args' (lit "toEmail") ->
  get args (lit "subject") = get args' (lit "subject") ->
  get args (lit "body") = get args' (lit "body") ->
  List.length tr = List.length tr' ->
  fst (sendEmailTool host w args tr) = fst (sendEmailTool host w args' tr')
  /\ exists evs,
       snd (sendEmailTool host w args tr) = tr ++ evs
       /\ snd (sendEmailTool host w args' tr') = tr' ++ evs.
Proof.
  intros Ht Hs Hb Hlen. unfold sendEmailTool. rewrite <- Ht, <- Hs, <- Hb.
  destruct (_ || _); [split; [reflexivity | exists []; now rewrite !app_nil_r] |].
  unfold bind, SendEmailParamsSchema_parse.
  destruct (_ && _ && _);
    [| split; [reflexivity | exists []; now rewrite !app_nil_r]].
  unfold ret, await. rewrite <- Hlen.
  destruct (relay w _ _ _); cbn; eauto.
Qed.

Lemma call_tool_get_weather (host : Host) (w : World) args tr :
  call_tool host w (lit "get_weather") args tr
  = bind (getWeatherTool host w args) (fun r => ret (WeatherOutput r))
         (tr ++ [ToolInvoke (lit "get_weather") args]).
Proof. reflexivity. Qed.

(** X15.  The declarations given to the model and the registry agree: a
    name is registered exactly when it is declared; every declared
    parameter is required; and what a tool returns, throws, requests or
    sends depends only on the arguments its declaration lists. *)
Theorem declarations_match_registry (host : Host) (w : World) :
  (forall n, toolsMap n <> None
             <-> exists d, In d functionDeclarations /\ fd_name d = n)
  /\ (forall d, In d functionDeclarations ->
        fd_required d = map p_name (fd_properties d)
        /\ forall args args' tr,
             (forall k, In k (fd_required d) -> get args k = get args' k) ->
             fst (call_tool host w (fd_name d) args tr)
             = fst (call_tool host w (fd_name d) args' tr)
             /\ exists evs,
                  snd (call_tool host w (fd_name d) args tr)
                  = tr ++ ToolInvoke (fd_name d) args :: evs
                  /\ snd (call_tool host w (fd_name d) args' tr)
                     = tr ++ ToolInvoke (fd_name d) args' :: evs).
Proof.
  split.
  - intros n. rewrite toolsMap_registered. split.
    + intros [-> | ->];
        [exists get_weather_declaration | exists send_email_declaration];
        cbn; auto.
    + intros (d & [<- | [<- | []]] & <-); cbn; auto.
  - intros d [<- | [<- | []]]; (split; [reflexivity |]);
      intros args args' tr Hagree.
    + change (fd_name get_weather_declaration) with (lit "get_weather").
      rewrite !call_tool_get_weather.
      destruct (@getWeatherTool_agree host w args args'
                  (tr ++ [ToolInvoke (lit "get_weather") args])
                  (tr ++ [ToolInvoke (lit "get_weather") args']))
        as (Hfst & evs & Hs1 & Hs2);
        [apply Hagree; now left | now rewrite !length_app |].
      unfold bind.
      destruct (getWeatherTool host w args _) as [[r | e |] t1];
        destruct (getWeatherTool host w args' _) as [[r' | e' |] t2];
        unfold ret; cbn [fst snd] in *; try discriminate; subst t1 t2;
        (split; [congruence |]); exists evs; now rewrite <- !app_assoc.
    + change (fd_name send_email_declaration) with (lit "send_email").
      rewrite !call_tool_send_email by reflexivity.
      destruct (@sendEmailTool_agree host w args args'
                  (tr ++ [ToolInvoke (lit "send_email") args])
                  (tr ++ [ToolInvoke (lit "send_email") args']))
        as (Hfst & evs & Hs1 & Hs2);
        [apply Hagree; cbn; auto | apply Hagree; cbn; auto
         | apply Hagree; cbn; auto | now rewrite !length_app |].
      split; [assumption |]. exists evs. rewrite Hs1, Hs2.
      now rewrite <- !app_assoc.
Qed.

Lemma declarations_match_registry_witness :
  fst (call_tool Examples.host Scenarios.paris_world
         (fd_name get_weather_declaration) Scenarios.paris_metric [])
  = fst (call_tool Examples.host Scenarios.paris_world
           (fd_name get_weather_declaration) [(lit "city", VStr (lit "Paris"))] []).
Proof.
  apply (proj2 (proj2 (declarations_match_registry Examples.host Scenarios.paris_world)
                  get_weather_declaration (or_introl eq_refl))
           Scenarios.paris_metric [(lit "city", VStr (lit "Paris"))] []).
  intros k [<- | []]. reflexivity.
Defined.

(* ================================================================== *)
(** ** Answers of the expected form *)

Lemma dropWhile_length (p : char16 -> bool) (s : jsstring) :
  List.length (dropWhile p s) <= List.length s.
Proof.
  induction s as [|c s IH]; [cbn; lia |].
  cbn. destruct (p c); cbn; lia.
Qed.

Lemma dropWhile_same (p : char16 -> bool) (s : jsstring) :
  List.length (dropWhile p s) = List.length s -> dropWhile p s = s.
Proof.
  destruct s as [|c s]; [reflexivity |].
  cbn. destruct (p c); [| reflexivity].
  pose proof (dropWhile_length p s). cbn. lia.
Qed.

(** A string that [trim] leaves alone has no white space at either end. *)
Lemma trim_fixed (s : jsstring) :
  trim s = s ->
  dropWhile is_space s = s /\ dropWhile is_space (rev s) = rev s.
Proof.
  unfold trim. intros H.
  assert (Hlen : List.length (rev (dropWhile is_space (rev (dropWhile is_space s))))
                 = List.length s) by now rewrite H.
  rewrite length_rev in Hlen.
  pose proof (dropWhile_length is_space (rev (dropWhile is_space s))) as H1.
  rewrite length_rev in H1.
  pose proof (dropWhile_length is_space s) as H2.
  assert (Hs : dropWhile is_space s = s) by (apply dropWhile_same; lia).
  split; [assumption |].
  rewrite Hs in Hlen. apply dropWhile_same. now rewrite length_rev.
Qed.

Lemma dropWhile_app_kept (p : char16 -> bool) (s t : jsstring) :
  s <> [] -> dropWhile p s = s -> dropWhile p (s ++ t) = s ++ t.
Proof.
  destruct s as [|c s]; [congruence |].
  cbn. destruct (p c); [| reflexivity].
  intros _ H. pose proof (dropWhile_length p s) as Hl.
  rewrite H in Hl. cbn in Hl. lia.
Qed.

(** No match starts at a character that is neither a digit nor a sign, nor
    at a sign that no digit follows. *)
Lemma no_match_at (h : char16) (s : jsstring) :
  is_digit h = false ->
  (is_sign h = true -> match s with h2 :: _ => is_digit h2 = false | [] => True end) ->
  match_atoms temperature_atoms (h :: s) = None.
Proof.
  intros Hd Hs. unfold temperature_atoms. cbn [match_atoms]. rewrite Hd.
  destruct (is_sign h); [| reflexivity].
  destruct s as [|h2 s]; [reflexivity |].
  now rewrite (Hs eq_refl).
Qed.

Lemma search_skips (pre rest : jsstring) :
  forall i,
    forallb (fun c => negb (is_digit c)) pre = true ->
    is_sign (last pre 32%N) = false ->
    search temperature_atoms (pre ++ rest) i
    = search temperature_atoms rest (i + List.length pre).
Proof.
  induction pre as [|h pre IH]; intros i Hnd Hlast.
  - cbn. now rewrite Nat.add_0_r.
  - cbn [forallb] in Hnd. apply andb_true_iff in Hnd as [Hh Hpre].
    apply negb_true_iff in Hh.
    cbn [app search].
    rewrite no_match_at; [| assumption |].
    + rewrite IH; [cbn [List.length]; f_equal; lia | assumption |].
      destruct pre; [reflexivity | exact Hlast].
    + intros Hsign. destruct pre as [|h2 pre].
      * cbn in Hlast. congruence.
      * cbn in Hpre. apply andb_true_iff in Hpre as [H2 _].
        now apply negb_true_iff in H2.
Qed.

Lemma greedy_all (c : char16 -> bool) (rest : jsstring -> option (list nat))
      (ds tail : jsstring) (l : list nat) :
  forallb c ds = true ->
  match tail with t :: _ => c t = false | [] => True end ->
  rest tail = Some l ->
  greedy c rest (ds ++ tail) = Some (List.length ds :: l).
Proof.
  intros Hds Htail Hrest.
  induction ds as [|d ds IH].
  - cbn [app List.length].
    destruct tail as [|t tail]; cbn [greedy]; [now rewrite Hrest |].
    now rewrite Htail, Hrest.
  - cbn in Hds. apply andb_true_iff in Hds as [Hd Hds].
    cbn [app greedy List.length]. rewrite Hd, (IH Hds). reflexivity.
Qed.

Lemma match_atoms_Plus (c : char16 -> bool) (r : list atom) (x : char16) (s : jsstring) :
  match_atoms (Plus c :: r) (x :: s)
  = if c x then
      match greedy c (match_atoms r) s with
      | Some (n :: l) => Some (S n :: l)
      | _ => None
      end
    else None.
Proof. reflexivity. Qed.

Lemma match_atoms_Opt (c : char16 -> bool) (r : list atom) (x : char16) (s : jsstring) :
  match_atoms (Opt c :: r) (x :: s)
  = if c x then
      match match_atoms r s with
      | Some l => Some (1 :: l)
      | None => option_map (cons 0) (match_atoms r (x :: s))
      end
    else option_map (cons 0) (match_atoms r (x :: s)).
Proof. reflexivity. Qed.

(** The match of a signed number followed by the degree sign and [C]. *)
Lemma match_number (sign digits : jsstring) :
  (sign = [] \/ exists x, sign = [x] /\ is_sign x = true) ->
  digits <> [] -> forallb is_digit digits = true ->
  match_atoms temperature_atoms (sign ++ digits ++ [degree; 67%N])
  = Some [List.length sign; List.length digits; 0; 1; 1].
Proof.
  intros Hsign Hne Hdigits.
  destruct digits as [|d ds]; [congruence |].
  cbn [forallb] in Hdigits. apply andb_true_iff in Hdigits as [Hd Hds].
  assert (Hnum : match_atoms [Plus is_digit; Star is_space; One is_degree; One is_C_nocase]
                   (d :: ds ++ [degree; 67%N])
                 = Some [S (List.length ds); 0; 1; 1]).
  { rewrite match_atoms_Plus, Hd.
    rewrite (@greedy_all is_digit
               (match_atoms [Star is_space; One is_degree; One is_C_nocase])
               ds [degree; 67%N] [0; 1; 1] Hds); reflexivity. }
  unfold temperature_atoms.
  destruct Hsign as [-> | (x & -> & Hx)]; cbn [app List.length].
  - rewrite match_atoms_Opt, (digit_is_not_sign _ Hd), Hnum. reflexivity.
  - rewrite match_atoms_Opt, Hx, Hnum. reflexivity.
Qed.

Lemma firstn_app_exact {A} (s t : list A) : firstn (List.length s) (s ++ t) = s.
Proof. induction s as [|x s IH]; [now destruct t | cbn; now rewrite IH]. Qed.

Lemma skipn_app_exact {A} (s t : list A) : skipn (List.length s) (s ++ t) = t.
Proof. induction s as [|x s IH]; [reflexivity | exact IH]. Qed.

(** An answer of the expected form, when [Number] of the signed digits is
    finite. *)
Lemma getWeatherTool_parses_finite (host : Host) (w : World) args tr
        c escaped cond sign digits z :
  get args (lit "city") = VStr c -> c <> [] ->
  encodeURIComponent (toLowerCase host c) = Some escaped ->
  cond <> [] -> trim cond = cond ->
  forallb (fun x => negb (is_digit x)) cond = true ->
  (sign = [] \/ exists x, sign = [x] /\ is_sign x = true) ->
  digits <> [] -> forallb is_digit digits = true ->
  Number (sign ++ digits) = Int z ->
  weather w (List.length tr) (weather_url escaped)
    = Fulfilled (cond ++ [32%N] ++ sign ++ digits ++ [degree; 67%N]) ->
  getWeatherTool host w args tr
  = (Returned {| city := c; degree_c := Int z; condition := Some cond |},
     tr ++ [HttpGet (weather_url escaped)]).
Proof.
  intros Hcity Hc Henc Hcond Htrim Hnodigit Hsign Hne Hdigits Hnum Hweather.
  destruct (trim_fixed Htrim) as [Hfront Hback].
  remember (sign ++ digits ++ [degree; 67%N]) as number eqn:Hnumber.
  remember (cond ++ [32%N]) as pre eqn:Hpre.
  assert (Hdata : cond ++ [32%N] ++ number = pre ++ number)
    by (subst pre; now rewrite <- app_assoc).
  (* the answer is already trimmed *)
  assert (Hraw : trim (cond ++ [32%N] ++ number) = cond ++ [32%N] ++ number).
  { unfold trim. rewrite (dropWhile_app_kept _ _ Hcond Hfront).
    subst number.
    replace (cond ++ [32%N] ++ sign ++ digits ++ [degree; 67%N])
      with ((cond ++ [32%N] ++ sign ++ digits ++ [degree]) ++ [67%N])
      by (now rewrite <- !app_assoc).
    rewrite rev_app_distr. cbn [rev app dropWhile].
    change (is_space 67%N) with false. cbv iota.
    cbn [rev]. rewrite rev_involutive. reflexivity. }
  (* where the pattern matches *)
  assert (Hmatch : match_atoms temperature_atoms number
                   = Some [List.length sign; List.length digits; 0; 1; 1])
    by (subst number; now apply match_number).
  assert (Hsearch : search temperature_atoms (pre ++ number) 0
                    = Some (List.length pre,
                            [List.length sign; List.length digits; 0; 1; 1])).
  { rewrite search_skips.
    - destruct number; cbn [search]; now rewrite Hmatch.
    - subst pre. rewrite forallb_app, Hnodigit. reflexivity.
    - subst pre. rewrite last_last. reflexivity. }
  assert (Hgroup : firstn (List.length sign + (List.length digits + 0))
                     (skipn (List.length pre) (pre ++ number)) = sign ++ digits).
  { rewrite skipn_app_exact. subst number.
    rewrite Nat.add_0_r, app_assoc, <- length_app. apply firstn_app_exact. }
  assert (Hrest : firstn (List.length pre) (pre ++ number)
                  ++ skipn (List.length pre
                            + (List.length sign + (List.length digits + (0 + (1 + (1 + 0))))))
                       (pre ++ number) = pre).
  { rewrite firstn_app_exact, skipn_add, skipn_app_exact.
    replace (List.length sign + (List.length digits + (0 + (1 + (1 + 0)))))
      with (List.length number)
      by (subst number; rewrite !length_app; cbn; lia).
    rewrite skipn_all. apply app_nil_r. }
  assert (Hcondition : trim pre = cond).
  { unfold trim. subst pre. rewrite (dropWhile_app_kept _ _ Hcond Hfront).
    rewrite rev_app_distr. cbn [rev app dropWhile].
    change (is_space 32%N) with true. cbv iota.
    rewrite Hback. apply rev_involutive. }
  unfold getWeatherTool. rewrite Hcity.
  destruct c as [|x c]; [congruence |].
  cbn [truthy is_string negb orb as_string]. rewrite Henc.
  unfold bind, await. fold (weather_url escaped). rewrite Hweather, Hraw, Hdata.
  unfold str_match, replace_empty.
  change (atoms re_temp) with temperature_atoms.
  change (atoms re_temp_whole) with temperature_atoms.
  change (captured re_temp) with 2.
  rewrite Hsearch. cbn [group1 firstn total fold_right].
  rewrite Hgroup, Hnum, Hrest, Hcondition.
  destruct cond as [|y cond]; [congruence |].
  reflexivity.
Qed.

Lemma digits_value_fold (ds : jsstring) :
  forallb is_digit ds = true ->
  forall acc,
    digits_value acc ds
    = Some (fold_left (fun a c => (10 * a + (Z.of_N c - 48))%Z) ds acc).
Proof.
  induction ds as [|d ds IH]; intros H acc; [reflexivity |].
  cbn in *. apply andb_true_iff in H as [Hd Hds]. rewrite Hd. now apply IH.
Qed.

Lemma digits_fold_bound (ds : jsstring) :
  forallb is_digit ds = true ->
  forall acc,
    (0 <= acc)%Z ->
    (0 <= fold_left (fun a c => (10 * a + (Z.of_N c - 48))%Z) ds acc
     < (acc + 1) * 10 ^ Z.of_nat (List.length ds))%Z.
Proof.
  induction ds as [|d ds IH]; intros H acc Hacc; [cbn; lia |].
  cbn [forallb] in H. apply andb_true_iff in H as [Hd Hds].
  unfold is_digit in Hd. apply andb_true_iff in Hd as [Hlo Hhi].
  apply N.leb_le in Hlo, Hhi.
  cbn [fold_left List.length].
  specialize (IH Hds (10 * acc + (Z.of_N d - 48))%Z).
  rewrite Nat2Z.inj_succ, Z.pow_succ_r by lia.
  assert (0 < 10 ^ Z.of_nat (List.length ds))%Z by (apply Z.pow_pos_nonneg; lia).
  nia.
Qed.

(** An integer below [2^53] in size is a double. *)
Lemma round_to_double_exact (z : Z) :
  (Z.abs z < 2 ^ 53)%Z -> round_to_double z = Int z.
Proof.
  intros Hz. unfold round_to_double.
  destruct (Z.leb_spec (Z.log2 (Z.abs z) + 1) 53) as [_ | Hbits]; [reflexivity |].
  exfalso.
  destruct (Z.eq_dec (Z.abs z) 0) as [H0 | H0].
  - rewrite H0 in Hbits. cbn in Hbits. lia.
  - assert (Hpos : (0 < Z.abs z)%Z) by lia.
    apply (Z.log2_lt_pow2 _ 53 Hpos) in Hz. lia.
Qed.

(** [Number] of at most fifteen signed digits is the number they denote. *)
Lemma Number_exact (sign digits : jsstring) :
  (sign = [] \/ exists x, sign = [x] /\ is_sign x = true) ->
  digits <> [] -> forallb is_digit digits = true ->
  List.length digits <= 15 ->
  Number (sign ++ digits) = Int (signed_value sign digits).
Proof.
  intros Hsign Hne Hdigits Hlen.
  pose proof (digits_value_fold _ Hdigits 0%Z) as Hv. fold (decimal digits) in Hv.
  pose proof (digits_fold_bound _ Hdigits (Z.le_refl 0)) as Hb.
  fold (decimal digits) in Hb.
  assert (Hsmall : (decimal digits < 2 ^ 53)%Z).
  { assert (10 ^ Z.of_nat (List.length digits) <= 10 ^ 15)%Z
      by (apply Z.pow_le_mono_r; lia).
    assert (10 ^ 15 < 2 ^ 53)%Z by reflexivity. lia. }
  destruct digits as [|d ds]; [congruence |].
  assert (Hd : is_digit d = true)
    by (cbn in Hdigits; now apply andb_true_iff in Hdigits).
  unfold Number, signed_value.
  destruct Hsign as [-> | (x & -> & Hx)]; cbn [app].
  - rewrite (digit_is_not_sign _ Hd), Hv. apply round_to_double_exact. lia.
  - rewrite Hx, Hv. destruct (x =? 45)%N; apply round_to_double_exact; lia.
Qed.

(** X16.  For an answer of the service of the form
    [<condition> <sign><digits>°C], where the condition has no digit and no
    white space at its ends and there are at most fifteen digits,
    [getWeatherTool] returns the city as given, the integer that the signed
    digits denote, and the condition. *)
Theorem getWeatherTool_parses (host : Host) (w : World) args tr
        c escaped cond sign digits :
  get args (lit "city") = VStr c -> c <> [] ->
  encodeURIComponent (toLowerCase host c) = Some escaped ->
  cond <> [] -> trim cond = cond ->
  forallb (fun x => negb (is_digit x)) cond = true ->
  (sign = [] \/ exists x, sign = [x] /\ is_sign x = true) ->
  digits <> [] -> forallb is_digit digits = true ->
  List.length digits <= 15 ->
  weather w (List.length tr) (weather_url escaped)
    = Fulfilled (cond ++ [32%N] ++ sign ++ digits ++ [degree; 67%N]) ->
  getWeatherTool host w args tr
  = (Returned {| city := c;
                 degree_c := Int (signed_value sign digits);
                 condition := Some cond |},
     tr ++ [HttpGet (weather_url escaped)]).
Proof.
  intros Hcity Hc Henc Hcond Htrim Hnodigit Hsign Hne Hdigits Hlen Hweather.
  eapply getWeatherTool_parses_finite; try eassumption.
  now apply Number_exact.
Qed.

Lemma getWeatherTool_parses_witness :
  getWeatherTool Examples.host Scenarios.paris_world [(lit "city", VStr (lit "Paris"))] []
  = (Returned {| city := lit "Paris";
                 degree_c := Int (signed_value (lit "+") (lit "15"));
                 condition := Some (lit "Partly cloudy") |},
     [] ++ [HttpGet (weather_url (lit "paris"))]).
Proof.
  apply (@getWeatherTool_parses Examples.host Scenarios.paris_world
           [(lit "city", VStr (lit "Paris"))] []
           (lit "Paris") (lit "paris") (lit "Partly cloudy") (lit "+") (lit "15")).
  - reflexivity.
  - discriminate.
  - reflexivity.
  - discriminate.
  - reflexivity.
  - reflexivity.
  - right. exists 43%N. split; reflexivity.
  - discriminate.
  - reflexivity.
  - cbn. lia.
  - reflexivity.
Defined.

Example signed_value_examples :
  signed_value (lit "+") (lit "15") = 15%Z
  /\ signed_value (lit "-") (lit "007") = (-7)%Z
  /\ signed_value [] (lit "0") = 0%Z.
Proof. repeat split. Qed.

(** With more digits than a double can hold the same form of answer makes
    the tool throw: the number overflows and the schema rejects NaN. *)
Example getWeatherTool_overflow :
  fst (getWeatherTool Examples.host
         (Examples.constant_world Examples.no_env (Examples.respond [])
            (lit "Hot " ++ repeat 57%N 400 ++ [degree; 67%N]))
         [(lit "city", VStr (lit "Paris"))] [])
  = Thrown (ZodError [lit "degree_c"]).
Proof. vm_compute. reflexivity. Qed.
